(** * dl4cv: layers, fully-connected networks and the solver

    A shallow embedding of [dl4cv/layers.py], [dl4cv/classifiers/fc_net.py]
    and [dl4cv/solver.py], and the properties of the program proved over it.

    Conventions of the embedding.
    - A NumPy float is a real number ([R]): rounding is outside the model.
      The reals have no [inf] and no [nan] (in [R], [a / 0] is [0]); the one
      array division of the code whose divisor can be zero, the test-time
      normalisation of [batchnorm_forward], is therefore carried out in
      [float64], the reals with [inf], [-inf] and [nan].
    - A 1-d array is a list, a 2-d array a list of rows.  The layers take
      the mini-batch already flattened to shape (N, D), so the reshape of
      [affine_forward] is the identity.  Broadcasting errors of NumPy are
      not modelled: elementwise operations stop at the shorter operand.
    - A Python dict with string keys is a [gmap string _]; a [KeyError],
      [ValueError], [IndexError], [TypeError] or [ZeroDivisionError]
      raised by the code is the result [None].
    - Random draws ([np.random]) and the collaborators that are not part of
      these three files (update rules, the model used by the solver) are
      parameters.  Casts between float types ([astype]) are the identity,
      and what the code only prints is left out. *)

From Stdlib Require Import Reals Lra ZArith QArith.
From stdpp Require Import gmap strings list fin_maps pretty.

(** ** NumPy operations used by the code *)

Module np.
Local Open Scope R_scope.

Abbreviation vector := (list R).
Abbreviation matrix := (list (list R)).

(** [x.shape] of a 2-d array. *)
Definition shape (x : matrix) : nat * nat :=
  (length x, match x with [] => 0%nat | r :: _ => length r end).

Definition zeros (D : nat) : vector := replicate D 0.
Definition ones (D : nat) : vector := replicate D 1.
Definition ones2 (N D : nat) : matrix := replicate N (ones D).

(** [x[i, j]] *)
Definition item (x : matrix) (i j : nat) : option R := x !! i ≫= (.!! j).

(** [np.sum(v)] *)
Definition sum (v : vector) : R := foldr Rplus 0 v.

(** [np.sum(x, axis=0)] for [x] of shape (N, D) *)
Definition sum_axis0 (D : nat) (x : matrix) : vector :=
  foldr (zip_with Rplus) (zeros D) x.

(** [np.sum(x, axis=1, keepdims=True)]: one entry per row *)
Definition sum_axis1 (x : matrix) : vector := sum <$> x.

(** [np.sum(x)] of a 2-d array *)
Definition sum_all (x : matrix) : R := sum (sum_axis1 x).

(** elementwise [f] of two arrays of one shape *)
Definition elementwise (f : R → R → R) (x y : matrix) : matrix :=
  zip_with (zip_with f) x y.

(** [f(x, v)] with [v] of shape (D,) broadcast over the rows of [x] *)
Definition rows (f : R → R → R) (x : matrix) (v : vector) : matrix :=
  (λ r, zip_with f r v) <$> x.

(** [f(x, c)] with [c] of shape (N, 1) broadcast over the columns of [x] *)
Definition cols (f : R → R → R) (x : matrix) (c : vector) : matrix :=
  zip_with (λ r a, (λ e, f e a) <$> r) x c.

(** [f(x)] applied to every entry *)
Definition map2 (f : R → R) (x : matrix) : matrix :=
  (λ r : vector, f <$> r) <$> x.

(** [x.T] for [x] of shape (N, D) *)
Definition transpose (D : nat) (x : matrix) : matrix :=
  (λ j, (λ r, nth j r 0) <$> x) <$> seq 0 D.

(** [np.dot(x, w)] for [x] of shape (N, D) and [w] of shape (D, M) *)
Definition dot (x w : matrix) : matrix :=
  let M := snd (shape w) in
  (λ r, sum_axis0 M (zip_with (λ a wr, Rmult a <$> wr) r w)) <$> x.

(** [np.max(r)] of one row; NumPy raises on an empty row *)
Definition max (r : vector) : option R :=
  match r with
  | [] => None
  | a :: t => Some (foldl Rmax a t)
  end.

(** Python's index into a sequence of length [C]: a negative index counts
    from the end, an index out of range raises [IndexError]. *)
Definition index (C : nat) (k : Z) : option nat :=
  if bool_decide (0 ≤ k < Z.of_nat C)%Z then Some (Z.to_nat k)
  else if bool_decide (- Z.of_nat C ≤ k < 0)%Z then Some (Z.to_nat (Z.of_nat C + k))
  else None.

(** An entry of a float array where a division by zero is possible: a real
    number, [inf] or [-inf], or [nan].  NumPy does not raise on a division
    by zero of arrays, it warns and stores one of the three. *)
Inductive float64 :=
  | Finite (r : R)
  | Inf (negative : bool)
  | NaN.


(** [np.sqrt(v)]: [nan] for a negative number *)
Definition fsqrt (v : R) : float64 :=
  if Rlt_dec v 0 then NaN else Finite (sqrt v).

(** [a / b] for a number [a]: with the divisor zero, [nan] for [0 / 0] and
    otherwise [inf] with the sign of [a] (the zero is [+0], as the
    [np.sqrt(0)] of the code is) *)
Definition fdiv (a : R) (b : float64) : float64 :=
  match b with
  | Finite b =>
      if Req_dec_T b 0 then
        if Req_dec_T a 0 then NaN else Inf (if Rlt_dec a 0 then true else false)
      else Finite (a / b)
  | Inf _ => Finite 0
  | NaN => NaN
  end.

(** [a * g] for a number [g]: [inf * 0] is [nan] *)
Definition fmul (a : float64) (g : R) : float64 :=
  match a with
  | Finite a => Finite (a * g)
  | Inf negative =>
      if Req_dec_T g 0 then NaN else Inf (if Rlt_dec g 0 then negb negative else negative)
  | NaN => NaN
  end.

(** [a + b] for a number [b] *)
Definition fadd (a : float64) (b : R) : float64 :=
  match a with
  | Finite a => Finite (a + b)
  | Inf negative => Inf negative
  | NaN => NaN
  end.


(** The array as the layers that follow take it, which compute with reals:
    an entry that is a number is that number; [inf] and [nan] are no reals,
    and such an entry is [0] there. *)
Definition real (v : float64) : R :=
  match v with
  | Finite r => r
  | _ => 0
  end.

Definition reals (x : list (list float64)) : matrix :=
  (λ r : list float64, real <$> r) <$> x.
End np.

(** ** Values held by the layer state records ([bn_param], [dropout_param]) *)

Inductive pyval :=
  | VStr (s : string)
  | VFloat (r : R)
  | VInt (z : Z)
  | VArr (v : list R).

Abbreviation pydict := (gmap string pyval).

(** [d.get(k, default)] read as a float *)
Definition get_float (d : pydict) (k : string) (default : R) : option R :=
  match d !! k with
  | None => Some default
  | Some (VFloat r) => Some r
  | Some (VInt z) => Some (IZR z)
  | Some _ => None
  end.

(** [d.get(k, default)] read as a 1-d array *)
Definition get_array (d : pydict) (k : string) (default : list R) : option (list R) :=
  match d !! k with
  | None => Some default
  | Some (VArr v) => Some v
  | Some _ => None
  end.

(** [d[k]] read as a string *)
Definition get_str (d : pydict) (k : string) : option string :=
  match d !! k with
  | Some (VStr s) => Some s
  | _ => None
  end.

(** ** [dl4cv/layers.py] *)

Module layers.
Import np.
Local Open Scope R_scope.

Definition affine_cache : Type := matrix * matrix * vector.

Definition affine_forward (x w : matrix) (b : vector) : matrix * affine_cache :=
  let x_row := x in
  let out := rows Rplus (dot x_row w) b in
  let cache := (x, w, b) in
  (out, cache).

Definition affine_backward (dout : matrix) (cache : affine_cache)
  : matrix * matrix * vector :=
  let '(x, w, b) := cache in
  let x_row := x in
  let dw := dot (transpose (snd (shape x_row)) x_row) dout in
  let db := sum_axis0 (snd (shape dout)) dout in
  let dx_row := dot dout (transpose (snd (shape w)) w) in
  let dx := dx_row in
  (dx, dw, db).

(** [x > 0] as the number NumPy multiplies with *)
Definition gt0 (a : R) : R := if Rgt_dec a 0 then 1 else 0.

Definition relu_forward (x : matrix) : matrix * matrix :=
  let out := elementwise Rmult x (map2 gt0 x) in
  let cache := x in
  (out, cache).

Definition relu_backward (dout cache : matrix) : matrix :=
  let x := cache in
  let dx := dout in
  (* dx[x <= 0] = 0 *)
  elementwise (λ d a, if Rle_dec a 0 then 0 else d) dx x.

(** The cache tuple of [batchnorm_forward], in the order of the source. *)
Record bn_cache := BnCache {
  c_out : matrix;
  c_x_norm : matrix;
  c_beta : vector;
  c_gamma : vector;
  c_x_minus_mean : matrix;
  c_ivar : vector;
  c_sqrtvar : vector;
  c_var : vector;
  c_eps : R
}.

(** The test-time branch of [batchnorm_forward], in floats:
    [x = (x - running_mean) / np.sqrt(running_var)] and
    [out = x * gamma + beta]. *)
Definition batchnorm_test_output (x : matrix)
    (running_mean running_var gamma beta : vector) : list (list float64) :=
  let x :=
    (λ r, zip_with fdiv r (fsqrt <$> running_var)) <$> rows Rminus x running_mean in
  let out := (λ r, zip_with fadd (zip_with fmul r gamma) beta) <$> x in
  out.

Definition batchnorm_forward (x : matrix) (gamma beta : vector) (bn_param : pydict)
  : option (matrix * option bn_cache * pydict) :=
  mode ← get_str bn_param "mode";
  eps ← get_float bn_param "eps" 1e-5;
  momentum ← get_float bn_param "momentum" 0.9;
  let '(N, D) := shape x in
  running_mean ← get_array bn_param "running_mean" (zeros D);
  running_var ← get_array bn_param "running_var" (zeros D);
  '(out, cache, running_mean, running_var) ←
    (if decide (mode = "train") then
       let sample_mean := (λ s, s / INR N) <$> sum_axis0 D x in
       let x_minus_mean := rows Rminus x sample_mean in
       let sq := map2 (λ a, a ^ 2) x_minus_mean in
       (* 1. / N with N a Python int *)
       if decide (N = 0%nat) then None else
       let var := (λ s, 1 / INR N * s) <$> sum_axis0 D sq in
       let sqrtvar := (λ v, sqrt (v + eps)) <$> var in
       let ivar := (λ s, 1 / s) <$> sqrtvar in
       let x_norm := rows Rmult x_minus_mean ivar in
       let gammax := rows (λ xn g, g * xn) x_norm gamma in
       let out := rows Rplus gammax beta in
       let running_var :=
         zip_with (λ rv v, momentum * rv + (1 - momentum) * v) running_var var in
       let running_mean :=
         zip_with (λ rm m, momentum * rm + (1 - momentum) * m) running_mean sample_mean in
       let cache :=
         BnCache out x_norm beta gamma x_minus_mean ivar sqrtvar var eps in
       Some (out, Some cache, running_mean, running_var)
     else if decide (mode = "test") then
       (* in floats: nothing guards the divisor *)
       let out := batchnorm_test_output x running_mean running_var gamma beta in
       Some (reals out, None, running_mean, running_var)
     else None);
  let bn_param := <["running_mean" := VArr running_mean]> bn_param in
  let bn_param := <["running_var" := VArr running_var]> bn_param in
  Some (out, cache, bn_param).

Definition batchnorm_backward (dout : matrix) (cache : bn_cache)
  : option (matrix * vector * vector) :=
  let '(BnCache xout x_norm beta gamma x_minus_mean ivar sqrtvar var eps) := cache in
  let '(N, D) := shape dout in
  (* step 1 *)
  let dbeta := sum_axis0 D dout in
  let dgammax := dout in
  (* step 2 *)
  let dgamma := sum_axis0 D (elementwise Rmult dgammax xout) in
  let dx_norm := rows (λ d g, g * d) dgammax gamma in
  (* step 3 *)
  let divar := sum_axis0 D (elementwise Rmult dx_norm x_minus_mean) in
  let dminus_mean_1 := rows Rmult dx_norm ivar in
  (* step 4 *)
  let dsqrtvar := zip_with (λ di s, di * (- 1 / s ^ 2)) divar sqrtvar in
  (* step 5 *)
  let dvar := zip_with (λ ds v, ds * (1 / (2 * sqrt (v + eps)))) dsqrtvar var in
  (* step 6: 1.0 / N with N a Python int *)
  if decide (N = 0%nat) then None else
  let dsq := rows Rmult (map2 (λ o, 1 / INR N * o) (ones2 N D)) dvar in
  (* step 7 *)
  let dminus_mean_2 := elementwise (λ xm d, 2 * xm * d) x_minus_mean dsq in
  (* step 8 *)
  let dx1 := elementwise Rplus dminus_mean_2 dminus_mean_1 in
  let dsample_mean :=
    Ropp <$> sum_axis0 D (elementwise Rplus dminus_mean_2 dminus_mean_1) in
  (* step 9 *)
  let dx2 := rows Rmult (map2 (λ o, 1 / INR N * o) (ones2 N D)) dsample_mean in
  (* last step *)
  let dx := elementwise Rplus dx1 dx2 in
  Some (dx, dgamma, dbeta).

(** [cache = (dropout_param, mask)]; [mask] is [None] at test time. *)
Definition dropout_cache : Type := pydict * option matrix.

(** [rand] is the draw [np.random.rand( *x.shape)] of this call. *)
Definition dropout_forward (rand : matrix) (x : matrix) (dropout_param : pydict)
  : option (matrix * dropout_cache) :=
  p ← (match dropout_param !! "p" with
       | Some (VFloat p) => Some p
       | Some (VInt z) => Some (IZR z)
       | _ => None
       end);
  mode ← get_str dropout_param "mode";
  '(mask, out) ←
    (if decide (mode = "train") then
       let mask := map2 (λ u, (if Rge_dec u p then 1 else 0) / (1 - p)) rand in
       let out := elementwise Rmult x mask in
       Some (Some mask, out)
     else if decide (mode = "test") then
       Some (None, x)
     else None (* out is None: out.astype fails *));
  let cache := (dropout_param, mask) in
  Some (out, cache).

Definition dropout_backward (dout : matrix) (cache : dropout_cache) : option matrix :=
  let '(dropout_param, mask) := cache in
  mode ← get_str dropout_param "mode";
  if decide (mode = "train") then
    mask ← mask;
    Some (elementwise Rmult dout mask)
  else if decide (mode = "test") then
    Some dout
  else None (* dx is None *).

(** [probs] of [softmax_loss]: the two first statements of the source. *)
Definition softmax_probs (x : matrix) : option matrix :=
  row_max ← mapM max x;
  let probs := map2 exp (cols Rminus x row_max) in
  let probs := cols Rdiv probs (sum_axis1 probs) in
  Some probs.

(** [probs[np.arange(N), y]]; [y] has one label per row (NumPy would also
    broadcast a single label over the rows, which is not modelled). *)
Definition pick (probs : matrix) (y : list Z) : option vector :=
  if decide (length y = length probs) then
    mapM (λ '(r, k), j ← index (length r) k; r !! j) (zip probs y)
  else None.

(** [dx[np.arange(N), y] -= 1] *)
Definition subtract_one_at (dx : matrix) (y : list Z) : option matrix :=
  if decide (length y = length dx) then
    mapM (λ '(r, k), j ← index (length r) k; Some (alter (λ a, a - 1) j r)) (zip dx y)
  else None.

Definition softmax_loss (x : matrix) (y : list Z) : option (R * matrix) :=
  probs ← softmax_probs x;
  let N := fst (shape x) in
  picked ← pick probs y;
  let loss := - sum (ln <$> picked) / INR N in
  let dx := probs in
  dx ← subtract_one_at dx y;
  let dx := map2 (λ a, a / INR N) dx in
  Some (loss, dx).
End layers.

(** ** [dl4cv/classifiers/fc_net.py] *)

(** A [for] loop over the items of [l] whose body updates the loop state
    [s] or raises. *)
Fixpoint for_each {A S : Type} (body : S → A → option S) (s : S) (l : list A)
  : option S :=
  match l with
  | [] => Some s
  | a :: l => s ← body s a; for_each body s l
  end.

(** [range(n)] *)
Definition range (n : nat) : list nat := seq 0 n.

(** [range(n - 1, -1, -1)] *)
Definition range_down (n : nat) : list nat := reverse (seq 0 n).

Module fc_net.
Import np layers.
Local Open Scope R_scope.

(** A parameter or a gradient: a 1-d or a 2-d array. *)
Inductive ndarray :=
  | Vec (v : vector)
  | Mat (m : matrix).

Abbreviation store := (gmap string ndarray).

Definition get_mat (d : store) (k : string) : option matrix :=
  match d !! k with
  | Some (Mat m) => Some m
  | _ => None
  end.

Definition get_vec (d : store) (k : string) : option vector :=
  match d !! k with
  | Some (Vec v) => Some v
  | _ => None
  end.

(** What [loss] returns: the scores at test time, the loss and the
    gradients at training time. *)
Inductive loss_result :=
  | Scores (scores : matrix)
  | LossGrads (loss : R) (grads : store).

(** Modelled from the spec: [affine_relu_forward] and
    [affine_relu_backward] of [dl4cv/layer_utils.py], which is not among
    the sources; the two-layer network is affine, ReLU, affine, so the
    helper is the affine layer followed by the ReLU, its cache the pair of
    their caches, and the backward pass undoes them in reverse order. *)
Definition affine_relu_forward (x w : matrix) (b : vector)
  : matrix * (affine_cache * matrix) :=
  let '(a, fc_cache) := affine_forward x w b in
  let '(out, relu_cache) := relu_forward a in
  (out, (fc_cache, relu_cache)).

Definition affine_relu_backward (dout : matrix) (cache : affine_cache * matrix)
  : matrix * matrix * vector :=
  let '(fc_cache, relu_cache) := cache in
  let da := relu_backward dout relu_cache in
  affine_backward da fc_cache.

(** [W ** 2] summed *)
Definition sum_sq (W : matrix) : R := sum_all (map2 (λ a, a ^ 2) W).

(** [dW += reg * W] *)
Definition add_reg (reg : R) (dW W : matrix) : matrix :=
  elementwise Rplus dW (map2 (Rmult reg) W).

Section with_random.
(** [normal k scale n m] is the [k]-th draw
    [np.random.normal(scale=scale, size=(n, m))] of a constructor;
    [rand i] is the draw of the dropout layer [i] of one call of
    [loss]. *)
Variable normal : nat → R → nat → nat → matrix.
Variable rand : nat → matrix.

Record TwoLayerNet := {
  tl_params : store;
  tl_reg : R
}.

Definition TwoLayerNet_init (input_dim hidden_dim num_classes : nat)
    (weight_scale reg : R) : TwoLayerNet :=
  let params : store := ∅ in
  let params := <["W1" := Mat (normal 0 weight_scale input_dim hidden_dim)]> params in
  let params := <["b1" := Vec (zeros hidden_dim)]> params in
  let params := <["W2" := Mat (normal 1 weight_scale hidden_dim num_classes)]> params in
  let params := <["b2" := Vec (zeros num_classes)]> params in
  {| tl_params := params; tl_reg := reg |}.

Definition TwoLayerNet_loss (self : TwoLayerNet) (X : matrix) (y : option (list Z))
  : option loss_result :=
  W1 ← get_mat (tl_params self) "W1";
  b1 ← get_vec (tl_params self) "b1";
  W2 ← get_mat (tl_params self) "W2";
  b2 ← get_vec (tl_params self) "b2";
  let '(l1_out, l1_cache) := affine_relu_forward X W1 b1 in
  let '(l2_out, l2_cache) := affine_forward l1_out W2 b2 in
  let scores := l2_out in
  match y with
  | None => Some (Scores scores)
  | Some y =>
      let grads : store := ∅ in
      '(loss, dsm) ← softmax_loss scores y;
      let loss := loss + 0.5 * tl_reg self * (sum_sq W1 + sum_sq W2) in
      let '(dx2, dW2, db2) := affine_backward dsm l2_cache in
      let '(dx1, dW1, db1) := affine_relu_backward dx2 l1_cache in
      let dW1 := add_reg (tl_reg self) dW1 W1 in
      let dW2 := add_reg (tl_reg self) dW2 W2 in
      let grads := <["W1" := Mat dW1]> grads in
      let grads := <["W2" := Mat dW2]> grads in
      let grads := <["b1" := Vec db1]> grads in
      let grads := <["b2" := Vec db2]> grads in
      Some (LossGrads loss grads)
  end.

Record FullyConnectedNet := {
  use_batchnorm : bool;
  use_dropout : bool;
  reg : R;
  num_layers : nat;
  params : store;
  dropout_param : pydict;
  bn_params : list pydict
}.

(** The name of a parameter of layer [i + 1]: ['W' + str(i + 1)]. *)
Definition key (prefix : string) (i : nat) : string := prefix +:+ pretty (i + 1)%nat.

Definition FullyConnectedNet_init (hidden_dims : list nat)
    (input_dim num_classes : nat) (dropout : R) (use_batchnorm : bool)
    (reg weight_scale : R) (seed : option Z) : FullyConnectedNet :=
  let use_dropout := if Rgt_dec dropout 0 then true else false in
  let num_layers := (1 + length hidden_dims)%nat in
  let params : store := ∅ in
  let input_size := input_dim in
  let '(params, input_size) :=
    foldl (λ '(params, input_size) i,
             let hidden_dim_size := hidden_dims !!! i in
             let params :=
               <[key "W" i := Mat (normal i weight_scale input_size hidden_dim_size)]>
                 params in
             let params := <[key "b" i := Vec (zeros hidden_dim_size)]> params in
             let input_size := hidden_dim_size in
             let params :=
               if use_batchnorm then
                 let params := <[key "gamma" i := Vec (ones hidden_dim_size)]> params in
                 <[key "beta" i := Vec (zeros hidden_dim_size)]> params
               else params in
             (params, input_size))
          (params, input_size) (range (num_layers - 1)) in
  let params :=
    <["W" +:+ pretty num_layers :=
        Mat (normal (num_layers - 1) weight_scale input_size num_classes)]> params in
  let params := <["b" +:+ pretty num_layers := Vec (zeros num_classes)]> params in
  let dropout_param : pydict := ∅ in
  let dropout_param :=
    if use_dropout then
      let dropout_param : pydict :=
        <["p" := VFloat dropout]> (<["mode" := VStr "train"]> ∅) in
      match seed with
      | Some seed => <["seed" := VInt seed]> dropout_param
      | None => dropout_param
      end
    else dropout_param in
  let bn_params : list pydict :=
    if use_batchnorm then
      (λ _, {["mode" := VStr "train"]}) <$> range (num_layers - 1)
    else [] in
  {| use_batchnorm := use_batchnorm; use_dropout := use_dropout; reg := reg;
     num_layers := num_layers; params := params;
     dropout_param := dropout_param; bn_params := bn_params |}.

(** The caches of one hidden block: the dict [cache] of the forward
    loop, a key that was not set being [None]. *)
Record layer_cache := {
  cache_affine : affine_cache;
  cache_batchNorm : option bn_cache;
  cache_relu : matrix;
  cache_dropout : option dropout_cache
}.

(** The first statements of [loss]: the mode of the call is written into
    the state records. *)
Definition set_mode (self : FullyConnectedNet) (mode : string) : FullyConnectedNet :=
  let dropout_param := <["mode" := VStr mode]> (dropout_param self) in
  let bn_params :=
    if use_batchnorm self then
      (λ bn_param : pydict, <[mode := VStr mode]> bn_param) <$> bn_params self
    else bn_params self in
  {| use_batchnorm := use_batchnorm self; use_dropout := use_dropout self;
     reg := reg self; num_layers := num_layers self; params := params self;
     dropout_param := dropout_param; bn_params := bn_params |}.

(** The state of the forward loop. *)
Record forward_state := {
  f_l_out : matrix;
  f_reg_sum : R;
  f_caches : list layer_cache;
  f_bn_params : list pydict
}.

Definition forward_layer (self : FullyConnectedNet) (s : forward_state) (i : nat)
  : option forward_state :=
  W ← get_mat (params self) (key "W" i);
  b ← get_vec (params self) (key "b" i);
  let reg_sum := f_reg_sum s + sum_sq W in
  let '(l_out, c_affine) := affine_forward (f_l_out s) W b in
  '(l_out, c_bn, bn_params) ←
    (if use_batchnorm self then
       gamma ← get_vec (params self) (key "gamma" i);
       beta ← get_vec (params self) (key "beta" i);
       bn_param ← f_bn_params s !! i;
       '(l_out, c, bn_param) ← batchnorm_forward l_out gamma beta bn_param;
       Some (l_out, c, <[i := bn_param]> (f_bn_params s))
     else Some (l_out, None, f_bn_params s));
  let '(l_out, c_relu) := relu_forward l_out in
  '(l_out, c_dropout) ←
    (if use_dropout self then
       '(l_out, c) ← dropout_forward (rand i) l_out (dropout_param self);
       Some (l_out, Some c)
     else Some (l_out, None));
  let cache :=
    {| cache_affine := c_affine; cache_batchNorm := c_bn;
       cache_relu := c_relu; cache_dropout := c_dropout |} in
  Some {| f_l_out := l_out; f_reg_sum := reg_sum;
          f_caches := f_caches s ++ [cache]; f_bn_params := bn_params |}.

Definition backward_layer (self : FullyConnectedNet) (caches : list layer_cache)
    (s : matrix * store) (i : nat) : option (matrix * store) :=
  let '(dx, grads) := s in
  cache ← caches !! i;
  dx ← (if use_dropout self then
          c ← cache_dropout cache; dropout_backward dx c
        else Some dx);
  let dx := relu_backward dx (cache_relu cache) in
  '(dx, grads) ←
    (if use_batchnorm self then
       c ← cache_batchNorm cache;
       '(dx, dgamma, dbeta) ← batchnorm_backward dx c;
       let grads := <[key "gamma" i := Vec dgamma]> grads in
       let grads := <[key "beta" i := Vec dbeta]> grads in
       Some (dx, grads)
     else Some (dx, grads));
  let '(dx, dW, db) := affine_backward dx (cache_affine cache) in
  W ← get_mat (params self) (key "W" i);
  let dW := add_reg (reg self) dW W in
  let grads := <[key "W" i := Mat dW]> grads in
  let grads := <[key "b" i := Vec db]> grads in
  Some (dx, grads).

(** [loss] returns its result and leaves the network with the state
    records it has written. *)
Definition FullyConnectedNet_loss (self : FullyConnectedNet) (X : matrix)
    (y : option (list Z)) : option (loss_result * FullyConnectedNet) :=
  let mode := match y with None => "test" | Some _ => "train" end in
  let self := set_mode self mode in
  s ← for_each (forward_layer self)
        {| f_l_out := X; f_reg_sum := 0; f_caches := [];
           f_bn_params := bn_params self |}
        (range (num_layers self - 1));
  let self :=
    {| use_batchnorm := use_batchnorm self; use_dropout := use_dropout self;
       reg := reg self; num_layers := num_layers self; params := params self;
       dropout_param := dropout_param self; bn_params := f_bn_params s |} in
  W ← get_mat (params self) ("W" +:+ pretty (num_layers self));
  b ← get_vec (params self) ("b" +:+ pretty (num_layers self));
  let '(scores, l_cache) := affine_forward (f_l_out s) W b in
  match y with
  | None => Some (Scores scores, self)
  | Some y =>
      let grads : store := ∅ in
      '(loss, dsm) ← softmax_loss scores y;
      let '(dx, dW, db) := affine_backward dsm l_cache in
      let grads := <["W" +:+ pretty (num_layers self) := Mat dW]> grads in
      let grads := <["b" +:+ pretty (num_layers self) := Vec db]> grads in
      '(dx, grads) ← for_each (backward_layer self (f_caches s)) (dx, grads)
                       (range_down (num_layers self - 1));
      let loss := loss + 0.5 * reg self * f_reg_sum s in
      Some (LossGrads loss grads, self)
  end.
End with_random.
End fc_net.

(** ** [dl4cv/solver.py] *)

Module solver.
Local Open Scope Z_scope.

(** How the body of a loop ends. *)
Inductive flow := Continue | Break.

(** A [for t in ts] loop with [break]: the loop state at its end and the
    [t] at which the loop was left by [break], if it was. *)
Fixpoint for_break {S : Type} (body : Z → S → option (S * flow)) (ts : list Z) (s : S)
  : option (S * option Z) :=
  match ts with
  | [] => Some (s, None)
  | t :: ts =>
      '(s, f) ← body t s;
      match f with
      | Break => Some (s, Some t)
      | Continue => for_break body ts s
      end
  end.

(** [range(n)] over Python integers: empty when [n <= 0]. *)
Definition zrange (n : Z) : list Z := Z.of_nat <$> seq 0 (Z.to_nat n).

(** [l[start:end]] for [0 <= start <= end] *)
Definition slice {A : Type} (l : list A) (start stop : nat) : list A :=
  take (stop - start) (drop start l).

(** [X[mask]] with an array of indices *)
Definition take_indices {A : Type} (X : list A) (mask : list nat) : option (list A) :=
  mapM (λ i, X !! i) mask.

Section with_model.
(** The model of the solver is any object with the API of the class
    docstring: [model.params], a dict from names to arrays, and
    [model.loss].  [array] is the type of a parameter, [sample] of one
    input, [hidden] of whatever else the model keeps between calls.
    - [model_loss params h X y] is [model.loss(X, y)]: the loss, the
      gradients and the state the call leaves.
    - [model_predict params h X] is
      [np.argmax(model.loss(X), axis=1)]: one label per input.
    - [update_rule] is the function of [optim.py] the solver was built
      with.
    - [batch_mask t] is the draw of [np.random.choice] in [_step] at
      iteration [t], [subsample_mask t] the draw in the [check_accuracy]
      of the training set at iteration [t]. *)
Context {array sample hidden : Type}.

Inductive optval :=
  | OFloat (r : R)
  | OArr (a : array).

Abbreviation store := (gmap string array).
Abbreviation config := (gmap string optval).

Variable model_loss :
  store → hidden → list sample → list Z → option (R * store * hidden).
Variable model_predict :
  store → hidden → list sample → option (list Z * hidden).
Variable update_rule : array → array → config → option (array * config).
Variable batch_mask : Z → list nat.
Variable subsample_mask : Z → list nat.

(** The attributes of a [Solver] set by [__init__] and never written
    again. *)
Record Options := {
  X_train : list sample;
  y_train : list Z;
  X_val : list sample;
  y_val : list Z;
  optim_config : config;
  lr_decay : R;
  batch_size : Z;
  num_epochs : Z;
  early_stopping : Z;
  verbose : bool
}.

(** The model and the book-keeping attributes. *)
Record Solver := {
  model_params : store;
  model_hidden : hidden;
  epoch : Z;
  best_val_acc : Q;
  best_params : store;
  early_stopping_counter : Z;
  loss_history : list R;
  val_loss_history : list R;
  train_acc_history : list Q;
  val_acc_history : list Q;
  optim_configs : gmap string config
}.

Definition _reset (o : Options) (params : store) (h : hidden) : Solver :=
  {| model_params := params;
     model_hidden := h;
     epoch := 0;
     best_val_acc := 0%Q;
     best_params := ∅;
     early_stopping_counter := early_stopping o;
     loss_history := [];
     val_loss_history := [];
     train_acc_history := [];
     val_acc_history := [];
     optim_configs := (λ _, optim_config o) <$> params |}.

(** The parameter update of [_step] for one item [(p, w)] of
    [model.params]. *)
Definition update_param (grads : store) (s : store * gmap string config)
    (item : string * array) : option (store * gmap string config) :=
  let '(params, configs) := s in
  let '(p, w) := item in
  dw ← grads !! p;
  config ← configs !! p;
  '(next_w, next_config) ← update_rule w dw config;
  Some (<[p := next_w]> params, <[p := next_config]> configs).

Definition _step (o : Options) (t : Z) (s : Solver) : option Solver :=
  let batch_mask := batch_mask t in
  X_batch ← take_indices (X_train o) batch_mask;
  y_batch ← take_indices (y_train o) batch_mask;
  '(loss, grads, h) ← model_loss (model_params s) (model_hidden s) X_batch y_batch;
  let loss_history := loss_history s ++ [loss] in
  '(params, configs) ←
    for_each (update_param grads) (model_params s, optim_configs s)
      (map_to_list (model_params s));
  Some {| model_params := params;
          model_hidden := h;
          epoch := epoch s;
          best_val_acc := best_val_acc s;
          best_params := best_params s;
          early_stopping_counter := early_stopping_counter s;
          loss_history := loss_history;
          val_loss_history := val_loss_history s;
          train_acc_history := train_acc_history s;
          val_acc_history := val_acc_history s;
          optim_configs := configs |}.

(** [np.mean(y_pred == y)]: the fraction of equal labels. *)
Definition mean_equal (y_pred y : list Z) : Q :=
  let hits := length (filter (λ '(a, b), a = b) (zip y_pred y)) in
  Z.of_nat hits # Pos.of_nat (length y_pred).

(** [mask] is the draw of [np.random.choice(N, num_samples)], used when
    the data is subsampled. *)
Definition check_accuracy (params : store) (h : hidden) (X : list sample) (y : list Z)
    (num_samples : option nat) (batch_size : nat) (mask : list nat)
  : option (Q * hidden) :=
  let N := length X in
  '(N, X, y) ←
    (match num_samples with
     | Some num_samples =>
         if decide (num_samples < N)%nat then
           X ← take_indices X mask;
           y ← take_indices y mask;
           Some (num_samples, X, y)
         else Some (N, X, y)
     | None => Some (N, X, y)
     end);
  (* N // batch_size *)
  if decide (batch_size = 0%nat) then None else
  let num_batches := (N / batch_size)%nat in
  let num_batches :=
    if decide (N mod batch_size ≠ 0)%nat then (num_batches + 1)%nat else num_batches in
  '(y_pred, h) ←
    for_each (λ '(y_pred, h) i,
                let start := (i * batch_size)%nat in
                let stop := ((i + 1) * batch_size)%nat in
                '(labels, h) ← model_predict params h (slice X start stop);
                Some (y_pred ++ [labels], h))
             ([] : list (list Z), h) (range num_batches);
  (* np.hstack of an empty list raises *)
  if decide (y_pred = []) then None else
  let y_pred := concat y_pred in
  let acc := mean_equal y_pred y in
  Some (acc, h).

(** [optim_configs[k]['learning_rate'] *= lr_decay] for every [k]. *)
Definition decay (lr_decay : R) (configs : gmap string config)
  : option (gmap string config) :=
  for_each (λ configs '(k, c),
              match c !! "learning_rate" with
              | Some (OFloat lr) =>
                  Some (<[k := <["learning_rate" := OFloat (lr * lr_decay)%R]> c]> configs)
              | _ => None
              end)
           configs (map_to_list configs).

Definition epoch_end (iterations_per_epoch t : Z) : bool :=
  bool_decide ((t + 1) mod iterations_per_epoch = 0).
Definition first_it (t : Z) : bool := bool_decide (t = 0).
Definition last_it (num_iterations t : Z) : bool :=
  bool_decide (t = num_iterations + 1).

(** The iteration [t] is one at which the accuracies are checked. *)
Definition checkpoint (iterations_per_epoch num_iterations t : Z) : bool :=
  first_it t || last_it num_iterations t || epoch_end iterations_per_epoch t.

(** The block under [if first_it or last_it or epoch_end] in [train];
    what is only printed is left out. *)
Definition evaluate (o : Options) (t : Z) (s : Solver) : option (Solver * flow) :=
  '(train_acc, h) ←
    check_accuracy (model_params s) (model_hidden s) (X_train o) (y_train o)
      (Some 1000%nat) 100 (subsample_mask t);
  '(val_acc, h) ←
    check_accuracy (model_params s) h (X_val o) (y_val o) None 100 [];
  let train_acc_history := train_acc_history s ++ [train_acc] in
  let val_acc_history := val_acc_history s ++ [val_acc] in
  '(val_loss_history, h) ←
    (if verbose o then
       '(val_loss, _, h) ← model_loss (model_params s) h (X_val o) (y_val o);
       Some (val_loss_history s ++ [val_loss], h)
     else Some (val_loss_history s, h));
  if Qlt_le_dec (best_val_acc s) val_acc then
    (* val_acc > self.best_val_acc *)
    Some ({| model_params := model_params s;
             model_hidden := h;
             epoch := epoch s;
             best_val_acc := val_acc;
             best_params := model_params s;
             early_stopping_counter := early_stopping o;
             loss_history := loss_history s;
             val_loss_history := val_loss_history;
             train_acc_history := train_acc_history;
             val_acc_history := val_acc_history;
             optim_configs := optim_configs s |}, Continue)
  else
    let early_stopping_counter := early_stopping_counter s - 1 in
    let stop :=
      bool_decide (-1 < early_stopping o) && bool_decide (early_stopping_counter <= 0) in
    Some ({| model_params := if stop then best_params s else model_params s;
             model_hidden := h;
             epoch := epoch s;
             best_val_acc := best_val_acc s;
             best_params := best_params s;
             early_stopping_counter := early_stopping_counter;
             loss_history := loss_history s;
             val_loss_history := val_loss_history;
             train_acc_history := train_acc_history;
             val_acc_history := val_acc_history;
             optim_configs := optim_configs s |},
          if stop then Break else Continue).

(** The body of the loop of [train]. *)
Definition iteration (o : Options) (iterations_per_epoch num_iterations : Z)
    (t : Z) (s : Solver) : option (Solver * flow) :=
  s ← _step o t s;
  s ← (if epoch_end iterations_per_epoch t then
         configs ← decay (lr_decay o) (optim_configs s);
         Some {| model_params := model_params s;
                 model_hidden := model_hidden s;
                 epoch := epoch s + 1;
                 best_val_acc := best_val_acc s;
                 best_params := best_params s;
                 early_stopping_counter := early_stopping_counter s;
                 loss_history := loss_history s;
                 val_loss_history := val_loss_history s;
                 train_acc_history := train_acc_history s;
                 val_acc_history := val_acc_history s;
                 optim_configs := configs |}
       else Some s);
  if checkpoint iterations_per_epoch num_iterations t then evaluate o t s
  else Some (s, Continue).

Definition iterations_per_epoch (o : Options) : Z :=
  Z.max (Z.of_nat (length (X_train o)) / batch_size o) 1.

Definition num_iterations (o : Options) : Z :=
  num_epochs o * iterations_per_epoch o.

(** The loop of [train]: the solver at the end of the loop and the
    iteration at which early stopping left it, if it did. *)
Definition train_loop (o : Options) (s : Solver) : option (Solver * option Z) :=
  (* num_train // self.batch_size *)
  if decide (batch_size o = 0) then None else
  for_break (iteration o (iterations_per_epoch o) (num_iterations o))
    (zrange (num_iterations o)) s.

(** [train].  The record holds [model.params] and [best_params] by value.
    The code ends by making [model.params] the dict [best_params] itself
    (as it does when early stopping breaks the loop), so that on a solver
    on which [train] has returned, a later [_step] would write into
    [best_params] as well: a second run of [train] on the same solver is
    outside this model.  A run that starts from the state of [_reset] is
    not concerned, the two dicts are distinct until the loop is left. *)
Definition train (o : Options) (s : Solver) : option Solver :=
  '(s, _) ← train_loop o s;
  (* At the end of training swap the best params into the model *)
  Some {| model_params := best_params s;
          model_hidden := model_hidden s;
          epoch := epoch s;
          best_val_acc := best_val_acc s;
          best_params := best_params s;
          early_stopping_counter := early_stopping_counter s;
          loss_history := loss_history s;
          val_loss_history := val_loss_history s;
          train_acc_history := train_acc_history s;
          val_acc_history := val_acc_history s;
          optim_configs := optim_configs s |}.
End with_model.
End solver.

(** ** Vocabulary of the statements and the inputs of the concrete runs *)

Module spec.
Import np layers fc_net.
Local Open Scope R_scope.

(** The softmax probabilities of one row [r] of scores whose maximum is
    [m]: [exp (a - m)] over the sum of the exponentials of the row. *)
Definition row_probs (r : vector) (m : R) : vector :=
  (λ a, exp (a - m) / sum ((λ b, exp (b - m)) <$> r)) <$> r.

(** Every label is a class index in [[0, C)]. *)
Definition labels_in_range (C : nat) (y : list Z) : Prop :=
  Forall (λ k, (0 ≤ k < Z.of_nat C)%Z) y.

(** The gradient with respect to [gamma] that the chain rule gives for
    [out = gamma * x_norm + beta]: the column sums of [dout * x_norm]. *)
Definition dgamma_analytic (dout x_norm : matrix) : vector :=
  sum_axis0 (snd (shape dout)) (elementwise Rmult dout x_norm).

(** The names of the parameters of the hidden block [i], and of the
    blocks of a list of indices. *)
Definition layer_keys (use_batchnorm : bool) (i : nat) : gset string :=
  {[key "W" i; key "b" i]} ∪
  (if use_batchnorm then {[key "gamma" i; key "beta" i]} else ∅).

Definition hidden_keys (use_batchnorm : bool) (l : list nat) : gset string :=
  ⋃ (layer_keys use_batchnorm <$> l).

(** [loss] returned a loss and gradients. *)
Definition is_grads (r : loss_result) : bool :=
  match r with
  | LossGrads _ _ => true
  | Scores _ => false
  end.

(** State records of a batch normalisation layer. *)
Definition bn_train : pydict := {["mode" := VStr "train"]}.
Definition bn_test : pydict := {["mode" := VStr "test"]}.

(** Draws for the concrete networks: every weight is one, no dropout
    draw is used. *)
Definition normal_ones (k : nat) (scale : R) (n m : nat) : matrix := ones2 n m.
Definition rand_none (i : nat) : matrix := [].

(** [TwoLayerNet(input_dim=1, hidden_dim=1, num_classes=2)] *)
Definition two_net : TwoLayerNet := TwoLayerNet_init normal_ones 1 1 2 1e-3 0.

(** [FullyConnectedNet([1], input_dim=1, num_classes=2,
    use_batchnorm=True)] *)
Definition bn_net : FullyConnectedNet :=
  FullyConnectedNet_init normal_ones [1%nat] 1 2 0 true 0 1e-2 None.
End spec.

Module solver_spec.
Import solver.
Local Open Scope Z_scope.

(** A part of the loop body that leaves the best-checkpoint attributes,
    respectively the accuracy histories, as it found them. *)
Definition same_best {array hidden : Type} (s s' : @Solver array hidden) : Prop :=
  best_params s' = best_params s ∧ best_val_acc s' = best_val_acc s ∧
  early_stopping_counter s' = early_stopping_counter s.

Definition same_acc_history {array hidden : Type} (s s' : @Solver array hidden)
  : Prop :=
  train_acc_history s' = train_acc_history s ∧
  val_acc_history s' = val_acc_history s.

(** No snapshot has been taken: [best_params] is the empty dict of
    [_reset] and [best_val_acc] is not negative. *)
Definition no_snapshot {array hidden : Type} (s : @Solver array hidden) : Prop :=
  best_params s = ∅ ∧ (0 <= best_val_acc s)%Q.

(** No recorded accuracy is greater than zero. *)
Definition none_positive (accs : list Q) : Prop := Forall (λ a, (a <= 0)%Q) accs.
End solver_spec.

(** A model and a data set for concrete runs of the solver: a parameter is
    a number, the gradient of every parameter is one, the update rule adds
    the gradient to the parameter, and the model predicts the label 0 for
    every input.  There are two training inputs, and one validation input
    whose label, 1, the model never predicts; the batch size is 1, so an
    epoch has two iterations, and there is one epoch. *)
Module toy.
Import solver.
Local Open Scope Z_scope.

Definition model_loss (params : gmap string nat) (h : unit) (X : list nat) (y : list Z)
  : option (R * gmap string nat * unit) :=
  Some (0%R, (λ _, 1%nat) <$> params, h).

Definition model_predict (params : gmap string nat) (h : unit) (X : list nat)
  : option (list Z * unit) :=
  Some ((λ _, 0) <$> X, h).

Definition update_rule (w dw : nat) (c : gmap string (@optval nat))
  : option (nat * gmap string (@optval nat)) :=
  Some ((w + dw)%nat, c).

Definition batch_mask (t : Z) : list nat := [0%nat].
Definition subsample_mask (t : Z) : list nat := [].

Definition options (early_stopping : Z) : @Options nat nat :=
  {| X_train := [0%nat; 1%nat]; y_train := [0; 0];
     X_val := [0%nat]; y_val := [1];
     optim_config := {["learning_rate" := OFloat 1%R]};
     lr_decay := 1%R; batch_size := 1; num_epochs := 1;
     early_stopping := early_stopping; verbose := false |}.

Definition params0 : gmap string nat := {["W1" := 0%nat]}.

Definition solver0 (early_stopping : Z) : @Solver nat unit :=
  _reset (options early_stopping) params0 ().

Definition iteration (early_stopping : Z) :=
  solver.iteration model_loss model_predict update_rule batch_mask subsample_mask
    (options early_stopping) 2 2.

Definition train_loop (early_stopping : Z) :=
  solver.train_loop model_loss model_predict update_rule batch_mask subsample_mask
    (options early_stopping) (solver0 early_stopping).

Definition train (early_stopping : Z) :=
  solver.train model_loss model_predict update_rule batch_mask subsample_mask
    (options early_stopping) (solver0 early_stopping).

(** The solver of the run after [t] steps and [checks] checks of the
    accuracies, none of which improved on [best_val_acc]. *)
Definition after (early_stopping : Z) (model_params : gmap string nat)
    (epoch : Z) (steps checks : nat) : @Solver nat unit :=
  {| model_params := model_params;
     model_hidden := ();
     epoch := epoch;
     best_val_acc := 0%Q;
     best_params := ∅;
     early_stopping_counter := early_stopping - Z.of_nat checks;
     loss_history := replicate steps 0%R;
     val_loss_history := [];
     train_acc_history := replicate checks (2 # 2)%Q;
     val_acc_history := replicate checks 0%Q;
     optim_configs :=
       {["W1" := {["learning_rate" :=
                     OFloat (if decide (epoch = 0) then 1%R else (1 * 1)%R)]}]} |}.
End toy.

(** ** Vocabulary of the further properties *)

Module shapes.
Import np.
Local Open Scope R_scope.

(** Every row of [x] has [D] entries. *)
Definition has_rows (D : nat) (x : matrix) : Prop := Forall (λ r, length r = D) x.

(** [x] is an array of shape (N, D). *)
Definition has_shape (N D : nat) (x : matrix) : Prop := length x = N ∧ has_rows D x.

(** The sum of the column [j] of [x]. *)
Definition column_sum (j : nat) (x : matrix) : R := sum ((λ r, nth j r 0) <$> x).

(** Python's indexing of a negative label: [-1] is the last class. *)
Definition wrap_label (C : nat) (k : Z) : Z :=
  if decide (k < 0)%Z then (Z.of_nat C + k)%Z else k.
End shapes.

Module net_state.
(** The state records [l'] are the records [l] with their modes. *)
Definition same_modes (l l' : list pydict) : Prop :=
  length l' = length l ∧
  ∀ i bn bn', l !! i = Some bn → l' !! i = Some bn' → bn' !! "mode" = bn !! "mode".

(** The mode of a call of [loss]: ['test'] without labels, ['train'] with. *)
Definition mode_of (y : option (list Z)) : string :=
  match y with None => "test" | Some _ => "train" end.
End net_state.

(** Inputs of concrete runs. *)
Module runs.
Import solver.
Local Open Scope Z_scope.

(** The options of [toy] with no epoch to run. *)
Definition idle_options : @Options nat nat :=
  {| X_train := [0%nat; 1%nat]; y_train := [0; 0];
     X_val := [0%nat]; y_val := [1];
     optim_config := {["learning_rate" := OFloat 1%R]};
     lr_decay := 1%R; batch_size := 1; num_epochs := 0;
     early_stopping := -1; verbose := false |}.


(** A network without parameters. *)
Definition empty_net : fc_net.FullyConnectedNet :=
  {| fc_net.use_batchnorm := false; fc_net.use_dropout := false; fc_net.reg := 0%R;
     fc_net.num_layers := 1; fc_net.params := ∅; fc_net.dropout_param := ∅;
     fc_net.bn_params := [] |}.
End runs.

(** * Properties *)

Set Warnings "-clear-no-such-hyp".

(** ** Layers *)

Section layers_facts.
Import np layers spec.
Local Open Scope R_scope.

Lemma item_elementwise f (x y : matrix) i j a b :
  item x i j = Some a → item y i j = Some b →
  item (elementwise f x y) i j = Some (f a b).
Proof.
  unfold item, elementwise. intros Hx Hy.
  rewrite lookup_zip_with.
  destruct (x !! i) as [r|]; [|done]. destruct (y !! i) as [r'|]; [|done].
  simpl in *. rewrite lookup_zip_with. rewrite Hx, Hy. done.
Qed.


(** *** ReLU *)

(** C8. Where the cached input is positive [relu_backward] passes the
    upstream gradient on, where it is zero or negative the gradient is
    zero; so a zero input gives a zero gradient. *)
Theorem relu_backward_spec (dout x : matrix) (i j : nat) (d a : R) :
  item dout i j = Some d → item x i j = Some a →
  (a > 0 → item (relu_backward dout x) i j = Some d) ∧
  (a <= 0 → item (relu_backward dout x) i j = Some 0).
Proof.
  intros Hd Ha. unfold relu_backward.
  rewrite (item_elementwise _ _ _ _ _ _ _ Hd Ha).
  destruct (Rle_dec a 0); split; intros; try lra; done.
Qed.

Lemma relu_backward_spec_witness :
  item (relu_backward [[5; 7; 9]] [[2; 0; -3]]) 0 0 = Some 5 ∧
  item (relu_backward [[5; 7; 9]] [[2; 0; -3]]) 0 1 = Some 0 ∧
  item (relu_backward [[5; 7; 9]] [[2; 0; -3]]) 0 2 = Some 0.
Proof.
  split; [|split].
  - apply (proj1 (relu_backward_spec [[5; 7; 9]] [[2; 0; -3]] 0 0 5 2
                    eq_refl eq_refl)). lra.
  - apply (proj2 (relu_backward_spec [[5; 7; 9]] [[2; 0; -3]] 0 1 7 0
                    eq_refl eq_refl)). lra.
  - apply (proj2 (relu_backward_spec [[5; 7; 9]] [[2; 0; -3]] 0 2 9 (-3)
                    eq_refl eq_refl)). lra.
Defined.

(** *** Softmax loss *)


Lemma sum_exp_nonneg (g : R → R) (r : vector) :
  0 <= sum ((λ a, exp (g a)) <$> r).
Proof.
  unfold sum. induction r as [|b r IH]; csimpl; [lra|].
  pose proof (exp_pos (g b)). lra.
Qed.

Lemma sum_exp_pos (g : R → R) (r : vector) :
  r ≠ [] → 0 < sum ((λ a, exp (g a)) <$> r).
Proof.
  destruct r as [|a r]; [done|intros _].
  pose proof (sum_exp_nonneg g r) as H. pose proof (exp_pos (g a)).
  unfold sum in *. csimpl. lra.
Qed.





Lemma cols_softmax (x : matrix) (ms : vector) :
  Forall2 (λ r m, max r = Some m) x ms →
  let e := map2 exp (cols Rminus x ms) in
  Forall2 (λ r p, ∃ m, max r = Some m ∧ p = row_probs r m) x
    (cols Rdiv e (sum_axis1 e)).
Proof.
  induction 1 as [|r m x ms Hm _ IH]; csimpl; constructor; [|exact IH].
  exists m. split; [done|]. unfold row_probs.
  rewrite <- !list_fmap_compose. done.
Qed.

Lemma softmax_probs_rows (x probs : matrix) :
  softmax_probs x = Some probs →
  Forall2 (λ r p, ∃ m, max r = Some m ∧ p = row_probs r m) x probs.
Proof.
  unfold softmax_probs. intros H.
  destruct (mapM max x) as [ms|] eqn:Hms; simplify_eq/=.
  apply cols_softmax. by apply mapM_Some.
Qed.


Lemma row_probs_length r m : length (row_probs r m) = length r.
Proof. unfold row_probs. by rewrite length_fmap. Qed.






(** *** Batch normalisation *)

Lemma batchnorm_forward_train (x : matrix) (gamma beta : vector) (bn bn' : pydict)
    (out : matrix) (cache : bn_cache) :
  batchnorm_forward x gamma beta bn = Some (out, Some cache, bn') →
  c_out cache = out ∧ c_gamma cache = gamma ∧ c_beta cache = beta ∧
  out = rows Rplus (rows (λ xn g, g * xn) (c_x_norm cache) gamma) beta.
Proof.
  unfold batchnorm_forward. intros H.
  destruct (get_str bn "mode") as [mode|]; [|done].
  destruct (get_float bn "eps" _) as [eps|]; [|done].
  destruct (get_float bn "momentum" _) as [momentum|]; [|done].
  simpl in H. destruct (shape x) as [N D].
  destruct (get_array bn "running_mean" _) as [rm|]; [|done].
  destruct (get_array bn "running_var" _) as [rv|]; [|done].
  simpl in H. repeat case_decide; simplify_eq/=. done.
Qed.

(** What [batchnorm_backward] returns for [dbeta] and [dgamma]: the column
    sums of [dout], and the column sums of [dout] times the first entry of
    the cache, which is the output of the layer. *)
Lemma batchnorm_backward_dgamma_dbeta (dout dx : matrix) (cache : bn_cache)
    (dgamma dbeta : vector) :
  batchnorm_backward dout cache = Some (dx, dgamma, dbeta) →
  dbeta = sum_axis0 (snd (shape dout)) dout ∧
  dgamma = sum_axis0 (snd (shape dout)) (elementwise Rmult dout (c_out cache)).
Proof.
  unfold batchnorm_backward. destruct cache. destruct (shape dout) as [N D].
  case_decide; [done|]. intros [= <- <- <-]. done.
Qed.

(** C2, at [x = [[1], [3]]], [gamma = [1]], [beta = [1]] and
    [dout = [[1], [0]]]: [dbeta] is the column sum of [dout], but [dgamma]
    is the column sum of [dout * out], one more than the column sum of
    [dout * x_norm] that the chain rule gives. *)
Theorem batchnorm_backward_dgamma_not_analytic :
  ∃ out cache bn' dx dgamma dbeta g a,
    batchnorm_forward [[1]; [3]] [1] [1] bn_train = Some (out, Some cache, bn') ∧
    batchnorm_backward [[1]; [0]] cache = Some (dx, dgamma, dbeta) ∧
    dbeta = [1] ∧
    dgamma = [g] ∧ dgamma_analytic [[1]; [0]] (c_x_norm cache) = [a] ∧
    g = a + 1 ∧ dgamma ≠ dgamma_analytic [[1]; [0]] (c_x_norm cache).
Proof.
  unfold batchnorm_forward.
  replace (get_str bn_train "mode") with (Some "train") by reflexivity.
  replace (get_float bn_train "eps" 1e-5) with (Some 1e-5) by reflexivity.
  replace (get_float bn_train "momentum" 0.9) with (Some 0.9) by reflexivity.
  cbn.
  replace (get_array bn_train "running_mean" [0]) with (Some [0]) by reflexivity.
  replace (get_array bn_train "running_var" [0]) with (Some [0]) by reflexivity.
  cbn.
  do 8 eexists. split; [reflexivity|]. cbn.
  split; [reflexivity|].
  split; [f_equal; lra|]. split; [reflexivity|]. split; [reflexivity|].
  split; [lra|]. intros [= H]. lra.
Qed.

Lemma get_array_default (d : pydict) (k : string) (default : vector) :
  d !! k = None → get_array d k default = Some default.
Proof. unfold get_array. by intros ->. Qed.








(** A test-time call on a fresh state record: the running statistics are
    the zero arrays. *)
Lemma batchnorm_forward_fresh_test :
  batchnorm_forward [[1; 2]] [1; 1] [0; 0] bn_test =
  Some (reals (batchnorm_test_output [[1; 2]] [0; 0] [0; 0] [1; 1] [0; 0]),
        None,
        <["running_var" := VArr [0; 0]]> (<["running_mean" := VArr [0; 0]]> bn_test)).
Proof.
  unfold batchnorm_forward.
  replace (get_str bn_test "mode") with (Some "test") by reflexivity.
  replace (get_float bn_test "eps" 1e-5) with (Some 1e-5) by reflexivity.
  replace (get_float bn_test "momentum" 0.9) with (Some 0.9) by reflexivity.
  cbn.
  replace (get_array bn_test "running_mean" [0; 0]) with (Some [0; 0]) by reflexivity.
  replace (get_array bn_test "running_var" [0; 0]) with (Some [0; 0]) by reflexivity.
  reflexivity.
Qed.

End layers_facts.

(** ** Networks *)

Section fc_net_facts.
Import np layers fc_net spec.
Local Open Scope R_scope.

Lemma for_each_cons {A S : Type} (body : S → A → option S) s a l :
  for_each body s (a :: l) = body s a ≫= λ s, for_each body s l.
Proof. reflexivity. Qed.

(** [set_mode] writes the key named by the mode of the call into a state
    record of batch normalisation, so the entry ["mode"] stays as it was. *)
Lemma set_mode_bn_param (self : FullyConnectedNet) (mode : string) (i : nat)
    (bn_param : pydict) :
  mode ≠ "mode" → bn_params self !! i = Some bn_param →
  ∃ bn_param', bn_params (set_mode self mode) !! i = Some bn_param' ∧
    bn_param' !! "mode" = bn_param !! "mode".
Proof.
  intros Hne Hi. unfold set_mode. simpl. destruct (use_batchnorm self).
  - rewrite list_lookup_fmap, Hi. simpl. eexists. split; [done|].
    by rewrite lookup_insert_ne.
  - by exists bn_param.
Qed.

(** C1, at a network with one batch normalisation layer called without
    labels: the call returns scores and leaves the mode of the dropout
    record at ['test'], but the state record of the batch normalisation
    layer still has the mode ['train'], with ['test'] written under the key
    ['test']; the layer has run its training branch, which moved the
    running mean away from zero. *)
Theorem loss_without_labels_leaves_batchnorm_mode_train :
  ∃ scores self' bn_param,
    FullyConnectedNet_loss rand_none bn_net [[1]] None = Some (Scores scores, self') ∧
    dropout_param self' !! "mode" = Some (VStr "test") ∧
    bn_params self' = [bn_param] ∧
    bn_param !! "mode" = Some (VStr "train") ∧
    bn_param !! "test" = Some (VStr "test") ∧
    ∃ m, bn_param !! "running_mean" = Some (VArr [m]) ∧ m ≠ 0.
Proof.
  assert (H : match FullyConnectedNet_loss rand_none bn_net [[1]] None with
              | Some (Scores _, self') =>
                  dropout_param self' !! "mode" = Some (VStr "test") ∧
                  match bn_params self' with
                  | [bn_param] =>
                      bn_param !! "mode" = Some (VStr "train") ∧
                      bn_param !! "test" = Some (VStr "test") ∧
                      match bn_param !! "running_mean" with
                      | Some (VArr [m]) => m ≠ 0
                      | _ => False
                      end
                  | _ => False
                  end
              | _ => False
              end).
  { unfold bn_net, FullyConnectedNet_init.
    destruct (Rgt_dec 0 0) as [H|_]; [lra|].
    vm_compute. repeat split. lra. }
  destruct (FullyConnectedNet_loss rand_none bn_net [[1]] None)
    as [[[scores|] self']|]; try done.
  destruct H as [H1 H2].
  destruct (bn_params self') as [|bn_param [|]] eqn:Hbn; try done.
  destruct H2 as (H2 & H3 & H4). exists scores, self', bn_param.
  repeat (split; [done|]).
  destruct (bn_param !! "running_mean") as [[| | |[|m [|]]]|]; try done.
  by exists m.
Qed.

Lemma hidden_keys_cons ub i l :
  hidden_keys ub (i :: l) = layer_keys ub i ∪ hidden_keys ub l.
Proof. reflexivity. Qed.

Lemma hidden_keys_app ub l1 l2 :
  hidden_keys ub (l1 ++ l2) = hidden_keys ub l1 ∪ hidden_keys ub l2.
Proof. unfold hidden_keys. rewrite fmap_app, union_list_app_L. done. Qed.

Lemma hidden_keys_reverse ub l : hidden_keys ub (reverse l) = hidden_keys ub l.
Proof.
  induction l as [|i l IH]; [done|].
  rewrite reverse_cons, hidden_keys_app, IH, !hidden_keys_cons.
  unfold hidden_keys at 2. simpl. set_solver.
Qed.

(** The keys written by the loop of a constructor that stores the
    parameters of the hidden blocks. *)
Lemma init_layers_dom {A : Type} (ub : bool) (fW : nat → A → nat → ndarray)
    (fb fg fbeta : nat → ndarray) (hd : nat → nat) (l : list nat) (p : store) (s : A)
    (next : nat → A) :
  dom (foldl (λ '(params, input_size) i,
                let params := <[key "W" i := fW i input_size (hd i)]> params in
                let params := <[key "b" i := fb (hd i)]> params in
                let params :=
                  if ub then
                    let params := <[key "gamma" i := fg (hd i)]> params in
                    <[key "beta" i := fbeta (hd i)]> params
                  else params in
                (params, next (hd i)))
             (p, s) l).1 = dom p ∪ hidden_keys ub l.
Proof.
  revert p s. induction l as [|i l IH]; intros p s; simpl.
  - unfold hidden_keys. simpl. set_solver.
  - rewrite IH, hidden_keys_cons. unfold layer_keys.
    destruct ub; rewrite ?dom_insert_L; set_solver.
Qed.

Lemma FullyConnectedNet_init_dom normal hidden_dims input_dim num_classes dropout
    ub reg weight_scale seed :
  let net := FullyConnectedNet_init normal hidden_dims input_dim num_classes dropout
               ub reg weight_scale seed in
  dom (params net) =
    {["W" +:+ pretty (num_layers net); "b" +:+ pretty (num_layers net)]} ∪
    hidden_keys (use_batchnorm net) (range (num_layers net - 1)) ∧
  num_layers net = (1 + length hidden_dims)%nat ∧ use_batchnorm net = ub.
Proof.
  unfold FullyConnectedNet_init.
  match goal with
  | |- context [foldl ?f (?p, ?s) ?l] =>
      assert (Hdom : dom (foldl f (p, s) l).1 = dom p ∪ hidden_keys ub l)
        by exact (init_layers_dom ub (λ i a h, Mat (normal i weight_scale a h))
                    (λ h, Vec (zeros h)) (λ h, Vec (ones h)) (λ h, Vec (zeros h))
                    (λ i, hidden_dims !!! i) l p s (λ h, h));
      destruct (foldl f (p, s) l) as [params input_size]
  end.
  simpl in *. rewrite !dom_insert_L, Hdom.
  replace (length hidden_dims - 0)%nat with (length hidden_dims) by lia.
  split; [set_solver|done].
Qed.

Lemma backward_layer_dom self caches dx grads i dx' grads' :
  backward_layer self caches (dx, grads) i = Some (dx', grads') →
  dom grads' = dom grads ∪ layer_keys (use_batchnorm self) i.
Proof.
  unfold backward_layer, layer_keys. intros H.
  destruct (caches !! i) as [cache|]; simplify_eq/=.
  destruct (if use_dropout self then _ else _) as [dx1|]; simplify_eq/=.
  destruct (use_batchnorm self).
  - destruct (cache_batchNorm cache) as [c|]; simplify_eq/=.
    destruct (batchnorm_backward _ c) as [[[dx2 dgamma] dbeta]|]; simplify_eq/=.
    destruct (affine_backward dx2 _) as [[dx3 dW] db].
    destruct (get_mat _ _) as [W|]; simplify_eq/=.
    rewrite !dom_insert_L. set_solver.
  - simpl in H. destruct (affine_backward _ _) as [[dx3 dW] db].
    destruct (get_mat _ _) as [W|]; simplify_eq/=.
    rewrite !dom_insert_L. set_solver.
Qed.

Lemma backward_layers_dom self caches l s s' :
  for_each (backward_layer self caches) s l = Some s' →
  dom s'.2 = dom s.2 ∪ hidden_keys (use_batchnorm self) l.
Proof.
  revert s. induction l as [|i l IH]; intros [dx grads] H.
  - simplify_eq/=. unfold hidden_keys. simpl. set_solver.
  - rewrite for_each_cons in H.
    destruct (backward_layer _ _ _ i) as [[dx1 grads1]|] eqn:Hi; [|done].
    simpl in H. rewrite (IH _ H), hidden_keys_cons. simpl.
    rewrite (backward_layer_dom _ _ _ _ _ _ _ Hi). set_solver.
Qed.

Lemma FullyConnectedNet_loss_dom rand self X y loss grads self' :
  FullyConnectedNet_loss rand self X (Some y) = Some (LossGrads loss grads, self') →
  dom grads =
    {["W" +:+ pretty (num_layers self); "b" +:+ pretty (num_layers self)]} ∪
    hidden_keys (use_batchnorm self) (range (num_layers self - 1)) ∧
  params self' = params self.
Proof.
  unfold FullyConnectedNet_loss. intros H.
  destruct (for_each (forward_layer _ _) _ _) as [s|]; simplify_eq/=.
  destruct (get_mat _ _) as [W|]; simplify_eq/=.
  destruct (get_vec _ _) as [b|]; simplify_eq/=.
  destruct (softmax_loss _ y) as [[l dsm]|]; simplify_eq/=.
  destruct (for_each _ _ _) as [[dx' grads']|] eqn:Hb; simplify_eq/=.
  apply backward_layers_dom in Hb. simpl in Hb. split; [|done].
  rewrite Hb. unfold range_down. rewrite hidden_keys_reverse.
  rewrite !dom_insert_L. unfold range. set_solver.
Qed.

(** C3. The gradients that a call of [loss] with labels returns have the
    keys of the parameter store, for a two-layer network and for a
    fully-connected network whose store has the keys its constructor
    gave it (with [gamma] and [beta] under batch normalisation). *)
Theorem loss_grads_keys_mirror_params :
  (∀ normal input_dim hidden_dim num_classes weight_scale reg0
     (self : TwoLayerNet) X y loss grads,
     dom (tl_params self) =
       dom (tl_params (TwoLayerNet_init normal input_dim hidden_dim num_classes
                         weight_scale reg0)) →
     TwoLayerNet_loss self X (Some y) = Some (LossGrads loss grads) →
     dom grads = dom (tl_params self)) ∧
  (∀ normal rand hidden_dims input_dim num_classes dropout ub reg0 weight_scale seed
     (self self' : FullyConnectedNet) X y loss grads,
     let net := FullyConnectedNet_init normal hidden_dims input_dim num_classes
                  dropout ub reg0 weight_scale seed in
     num_layers self = num_layers net →
     use_batchnorm self = use_batchnorm net →
     dom (params self) = dom (params net) →
     FullyConnectedNet_loss rand self X (Some y) = Some (LossGrads loss grads, self') →
     dom grads = dom (params self) ∧ dom grads = dom (params self')).
Proof.
  split.
  - intros normal input_dim hidden_dim num_classes weight_scale reg0 self X y loss grads
      Hdom H.
    rewrite Hdom. unfold TwoLayerNet_loss in H.
    destruct (get_mat _ "W1") as [W1|]; simplify_eq/=.
    destruct (get_vec _ "b1") as [b1|]; simplify_eq/=.
    destruct (get_mat _ "W2") as [W2|]; simplify_eq/=.
    destruct (get_vec _ "b2") as [b2|]; simplify_eq/=.
    destruct (softmax_loss _ y) as [[l dsm]|]; simplify_eq/=.
    rewrite !dom_insert_L. set_solver.
  - intros normal rand hidden_dims input_dim num_classes dropout ub reg0 weight_scale
      seed self self' X y loss grads net HL Hub Hdom H.
    destruct (FullyConnectedNet_loss_dom _ _ _ _ _ _ _ H) as [Hg Hp].
    destruct (FullyConnectedNet_init_dom normal hidden_dims input_dim num_classes
                dropout ub reg0 weight_scale seed) as (Hn & _ & _).
    fold net in Hn. rewrite Hp, Hdom, Hg, Hn, HL, Hub. done.
Qed.

Lemma two_net_trains :
  is_grads <$> TwoLayerNet_loss two_net [[1]] (Some [0%Z]) = Some true.
Proof. vm_compute. reflexivity. Qed.

Lemma bn_net_trains :
  is_grads ∘ fst <$> FullyConnectedNet_loss rand_none bn_net [[1]] (Some [1%Z])
  = Some true.
Proof.
  unfold bn_net, FullyConnectedNet_init.
  destruct (Rgt_dec 0 0) as [H0|_]; [lra|]. vm_compute. reflexivity.
Qed.

Lemma loss_grads_keys_mirror_params_witness :
  (∃ loss grads,
     TwoLayerNet_loss two_net [[1]] (Some [0%Z]) = Some (LossGrads loss grads) ∧
     dom grads = dom (tl_params two_net)) ∧
  (∃ loss grads self',
     FullyConnectedNet_loss rand_none bn_net [[1]] (Some [1%Z])
       = Some (LossGrads loss grads, self') ∧
     dom grads = dom (params bn_net) ∧ dom grads = dom (params self')).
Proof.
  split.
  - pose proof two_net_trains as Ht.
    destruct (TwoLayerNet_loss two_net [[1]] (Some [0%Z])) as [[s|loss grads]|] eqn:H;
      [discriminate Ht| |discriminate Ht].
    exists loss, grads. split; [reflexivity|].
    exact (proj1 loss_grads_keys_mirror_params normal_ones 1%nat 1%nat 2%nat
             1e-3 0 two_net [[1]] [0%Z] loss grads eq_refl H).
  - pose proof bn_net_trains as Ht.
    destruct (FullyConnectedNet_loss rand_none bn_net [[1]] (Some [1%Z]))
      as [[[s|loss grads] self']|] eqn:H; [discriminate Ht| |discriminate Ht].
    exists loss, grads, self'. split; [reflexivity|].
    exact (proj2 loss_grads_keys_mirror_params normal_ones rand_none [1%nat]
             1%nat 2%nat 0 true 0 1e-2 None bn_net self' [[1]] [1%Z] loss grads
             eq_refl eq_refl eq_refl H).
Defined.
End fc_net_facts.

(** ** Solver *)

Section solver_facts.
Import solver solver_spec.
Local Open Scope Z_scope.

Context {array sample hidden : Type}.
Variable model_loss :
  gmap string array → hidden → list sample → list Z
  → option (R * gmap string array * hidden).
Variable model_predict :
  gmap string array → hidden → list sample → option (list Z * hidden).
Variable update_rule :
  array → array → gmap string (@optval array)
  → option (array * gmap string (@optval array)).
Variables batch_mask subsample_mask : Z → list nat.

Local Notation "'step'" := (_step model_loss update_rule batch_mask).
Local Notation "'eval'" := (evaluate model_loss model_predict subsample_mask).
Local Notation "'iter'" :=
  (iteration model_loss model_predict update_rule batch_mask subsample_mask).
Local Notation "'run'" :=
  (train model_loss model_predict update_rule batch_mask subsample_mask).

Lemma step_frame (o : @Options array sample) t s s' :
  step o t s = Some s' → same_best s s' ∧ same_acc_history s s'.
Proof.
  unfold _step. intros H.
  destruct (take_indices (X_train o) _) as [X_batch|]; simplify_eq/=.
  destruct (take_indices (y_train o) _) as [y_batch|]; simplify_eq/=.
  destruct (model_loss _ _ _ _) as [[[l g] h]|]; simplify_eq/=.
  destruct (for_each _ _ _) as [[p c]|]; simplify_eq/=. done.
Qed.

(** The two ways through the check of the accuracies: the validation
    accuracy improves on the best one and the parameters are copied, or it
    does not and the counter goes down, which may end the loop. *)
Lemma evaluate_cases (o : @Options array sample) t s s' f :
  eval o t s = Some (s', f) →
  ∃ train_acc val_acc,
    train_acc_history s' = train_acc_history s ++ [train_acc] ∧
    val_acc_history s' = val_acc_history s ++ [val_acc] ∧
    ((best_val_acc s < val_acc)%Q ∧ best_val_acc s' = val_acc ∧
     best_params s' = model_params s ∧ model_params s' = model_params s ∧
     f = Continue
     ∨
     (val_acc <= best_val_acc s)%Q ∧ best_val_acc s' = best_val_acc s ∧
     best_params s' = best_params s ∧
     early_stopping_counter s' = early_stopping_counter s - 1 ∧
     (f = Break → -1 < early_stopping o ∧ early_stopping_counter s - 1 <= 0 ∧
                  model_params s' = best_params s) ∧
     (f = Continue → model_params s' = model_params s)).
Proof.
  unfold evaluate. intros H.
  destruct (check_accuracy _ _ _ (X_train o) _ _ _ _) as [[train_acc h1]|];
    simplify_eq/=.
  destruct (check_accuracy _ _ _ (X_val o) _ _ _ _) as [[val_acc h2]|];
    simplify_eq/=.
  destruct (if verbose o then _ else _) as [[vl h3]|]; simplify_eq/=.
  exists train_acc, val_acc.
  destruct (Qlt_le_dec (best_val_acc s) val_acc) as [Hlt|Hle]; simplify_eq/=.
  - split; [done|]. split; [done|]. left. done.
  - split; [done|]. split; [done|]. right. repeat (split; [done|]).
    destruct (bool_decide (-1 < early_stopping o)) eqn:H1;
      destruct (bool_decide (early_stopping_counter s - 1 <= 0)) eqn:H2;
      simpl; split; try done.
    intros _. apply bool_decide_eq_true in H1, H2. done.
Qed.

(** The loop body: the step and the decay leave the best-checkpoint
    attributes and the accuracy histories alone, then the accuracies are
    checked or not. *)
Lemma iteration_unfold (o : @Options array sample) ipe ni t s s' f :
  iter o ipe ni t s = Some (s', f) →
  ∃ s1, same_best s s1 ∧ same_acc_history s s1 ∧
    if checkpoint ipe ni t then eval o t s1 = Some (s', f)
    else s' = s1 ∧ f = Continue.
Proof.
  unfold iteration. intros H.
  destruct (step o t s) as [s0|] eqn:Hstep; simplify_eq/=.
  destruct (step_frame _ _ _ _ Hstep) as [(Hb1 & Hb2 & Hb3) [Ha1 Ha2]].
  destruct (epoch_end ipe t).
  - destruct (decay _ _) as [configs|]; simplify_eq/=.
    eexists. split; [|split; [|destruct (checkpoint ipe ni t); [exact H|]]].
    + done.
    + done.
    + by simplify_eq.
  - simpl in H. exists s0. split; [done|]. split; [done|].
    destruct (checkpoint ipe ni t); [done|]. by simplify_eq.
Qed.

Lemma last_it_false ni t : t < ni → last_it ni t = false.
Proof. intros H. unfold last_it. apply bool_decide_eq_false. lia. Qed.

(** C5. Inside the loop [last_it] is never true, so the accuracies are
    checked at the first iteration and at the end of an epoch and nowhere
    else: there both histories grow by one entry, elsewhere they stay and
    the loop goes on.  The final iteration is the end of an epoch. *)
Theorem checkpoints_only_at_first_iteration_and_epoch_ends
    (o : @Options array sample) (t : Z) :
  1 ≤ num_iterations o → 0 ≤ t < num_iterations o →
  last_it (num_iterations o) t = false ∧
  checkpoint (iterations_per_epoch o) (num_iterations o) t =
    first_it t || epoch_end (iterations_per_epoch o) t ∧
  epoch_end (iterations_per_epoch o) (num_iterations o - 1) = true ∧
  ∀ s s' f,
    iter o (iterations_per_epoch o) (num_iterations o) t s = Some (s', f) →
    if first_it t || epoch_end (iterations_per_epoch o) t then
      ∃ train_acc val_acc,
        train_acc_history s' = train_acc_history s ++ [train_acc] ∧
        val_acc_history s' = val_acc_history s ++ [val_acc]
    else
      train_acc_history s' = train_acc_history s ∧
      val_acc_history s' = val_acc_history s ∧ f = Continue.
Proof.
  intros Hn Ht.
  assert (Hlast : last_it (num_iterations o) t = false) by (apply last_it_false; lia).
  assert (Hcp : checkpoint (iterations_per_epoch o) (num_iterations o) t =
                first_it t || epoch_end (iterations_per_epoch o) t).
  { unfold checkpoint. rewrite Hlast. by rewrite orb_false_r. }
  split; [done|]. split; [done|]. split.
  - unfold epoch_end, num_iterations. apply bool_decide_eq_true.
    replace (num_epochs o * iterations_per_epoch o - 1 + 1)
      with (num_epochs o * iterations_per_epoch o) by lia.
    apply Z_mod_mult.
  - intros s s' f H.
    destruct (iteration_unfold _ _ _ _ _ _ _ H) as (s1 & _ & [Ha1 Ha2] & Hs).
    rewrite Hcp in Hs.
    destruct (first_it t || epoch_end (iterations_per_epoch o) t).
    + destruct (evaluate_cases _ _ _ _ _ Hs) as (ta & va & H1 & H2 & _).
      exists ta, va. by rewrite H1, H2, Ha1, Ha2.
    + destruct Hs as [-> ->]. done.
Qed.

Lemma iteration_val_acc_history (o : @Options array sample) ipe ni t s s' f :
  iter o ipe ni t s = Some (s', f) →
  val_acc_history s `prefix_of` val_acc_history s'.
Proof.
  intros H. destruct (iteration_unfold _ _ _ _ _ _ _ H) as (s1 & _ & [_ Ha] & Hs).
  destruct (checkpoint ipe ni t).
  - destruct (evaluate_cases _ _ _ _ _ Hs) as (ta & va & _ & H2 & _).
    rewrite H2, Ha. by apply prefix_app_r.
  - destruct Hs as [-> _]. by rewrite Ha.
Qed.

Lemma for_break_val_acc_history (o : @Options array sample) ipe ni ts s s' r :
  for_break (iter o ipe ni) ts s = Some (s', r) →
  val_acc_history s `prefix_of` val_acc_history s'.
Proof.
  revert s. induction ts as [|t ts IH]; intros s H; simpl in H.
  - by simplify_eq.
  - destruct (iter o ipe ni t s) as [[s1 f]|] eqn:Hi; simplify_eq/=.
    pose proof (iteration_val_acc_history _ _ _ _ _ _ _ Hi) as Hp.
    destruct f; simplify_eq; [|done]. etrans; [exact Hp|]. by apply IH.
Qed.

Lemma iteration_no_snapshot (o : @Options array sample) ipe ni t s s' f :
  iter o ipe ni t s = Some (s', f) →
  none_positive (val_acc_history s') → no_snapshot s → no_snapshot s'.
Proof.
  intros H Hacc [Hbp Hbv].
  destruct (iteration_unfold _ _ _ _ _ _ _ H) as (s1 & (Hb1 & Hb2 & _) & _ & Hs).
  destruct (checkpoint ipe ni t).
  - destruct (evaluate_cases _ _ _ _ _ Hs)
      as (ta & va & _ & H2 & [(Hlt & _)|(_ & Hv & Hp & _)]).
    + unfold none_positive in Hacc. rewrite H2 in Hacc.
      apply Forall_app in Hacc as [_ Hva].
      apply Forall_inv in Hva. rewrite Hb2 in Hlt. exfalso.
      apply (Qlt_irrefl 0). eapply Qle_lt_trans; [exact Hbv|].
      eapply Qlt_le_trans; [exact Hlt|exact Hva].
    + split; [by rewrite Hp, Hb1|by rewrite Hv, Hb2].
  - destruct Hs as [-> _]. split; [by rewrite Hb1|by rewrite Hb2].
Qed.

Lemma for_break_no_snapshot (o : @Options array sample) ipe ni ts s s' r :
  for_break (iter o ipe ni) ts s = Some (s', r) →
  none_positive (val_acc_history s') → no_snapshot s → no_snapshot s'.
Proof.
  revert s. induction ts as [|t ts IH]; intros s H Hacc Hs; simpl in H.
  - by simplify_eq.
  - destruct (iter o ipe ni t s) as [[s1 f]|] eqn:Hi; simplify_eq/=.
    destruct f; simplify_eq.
    + apply (IH s1); [done..|].
      eapply iteration_no_snapshot; [exact Hi| |exact Hs].
      destruct (for_break_val_acc_history _ _ _ _ _ _ _ H) as [k Hk].
      unfold none_positive in *. rewrite Hk in Hacc.
      by apply Forall_app in Hacc as [? _].
    + eapply iteration_no_snapshot; [exact Hi|exact Hacc|exact Hs].
Qed.

(** C9. A run of [train] on a solver as [_reset] leaves it, in which no
    check gives a validation accuracy above zero, never fills
    [best_params], and ends with the empty dict as [model.params]. *)
Theorem train_without_positive_val_acc_empties_params
    (o : @Options array sample) (params : gmap string array) (h : hidden)
    (s' : @Solver array hidden) :
  run o (_reset o params h) = Some s' →
  none_positive (val_acc_history s') →
  best_params s' = ∅ ∧ model_params s' = ∅.
Proof.
  unfold train, train_loop. intros H Hacc.
  destruct (decide (batch_size o = 0)); [done|].
  destruct (for_break _ _ _) as [[s1 r]|] eqn:Hl; simplify_eq/=.
  assert (Hreset : no_snapshot (_reset o params h)).
  { split; [done|]. simpl. apply Qle_refl. }
  destruct (for_break_no_snapshot _ _ _ _ _ _ _ Hl Hacc Hreset) as [Hbp _].
  done.
Qed.

(** Early stopping leaves the loop only at an iteration at which the
    accuracies are checked: the first one or the end of an epoch. *)
Lemma early_stop_at_checkpoint (o : @Options array sample) ipe ni ts s s' t :
  for_break (iter o ipe ni) ts s = Some (s', Some t) →
  t ∈ ts ∧ checkpoint ipe ni t = true.
Proof.
  revert s. induction ts as [|t0 ts IH]; intros s H; simpl in H; [done|].
  destruct (iter o ipe ni t0 s) as [[s1 f]|] eqn:Hi; simplify_eq/=.
  destruct f; simplify_eq.
  - destruct (IH _ H) as [? ?]. split; [by right|done].
  - split; [by left|].
    destruct (iteration_unfold _ _ _ _ _ _ _ Hi) as (s2 & _ & _ & Hs).
    destruct (checkpoint ipe ni t); [done|]. by destruct Hs.
Qed.
End solver_facts.

(** ** Runs of the solver on the toy model *)

Section solver_runs.
Import solver solver_spec.
Local Open Scope Z_scope.

Lemma toy_iterations (es : Z) :
  iterations_per_epoch (toy.options es) = 2 ∧ num_iterations (toy.options es) = 2.
Proof. split; reflexivity. Qed.

(** Without early stopping: the first iteration, the second one, the whole
    loop and [train]. *)
Lemma toy_first_iteration :
  toy.iteration (-1) 0 (toy.solver0 (-1)) =
  Some (toy.after (-1) {["W1" := 1%nat]} 0 1 1, Continue).
Proof. vm_compute. reflexivity. Qed.

Lemma toy_second_iteration :
  toy.iteration (-1) 1 (toy.after (-1) {["W1" := 1%nat]} 0 1 1) =
  Some (toy.after (-1) {["W1" := 2%nat]} 1 2 2, Continue).
Proof. vm_compute. reflexivity. Qed.

Lemma toy_train_loop :
  toy.train_loop (-1) = Some (toy.after (-1) {["W1" := 2%nat]} 1 2 2, None).
Proof. vm_compute. reflexivity. Qed.

Lemma toy_train : toy.train (-1) = Some (toy.after (-1) ∅ 1 2 2).
Proof. vm_compute. reflexivity. Qed.

(** With a patience of one epoch. *)
Lemma toy_train_loop_stops :
  toy.train_loop 1 = Some (toy.after 1 ∅ 0 1 1, Some 0).
Proof. vm_compute. reflexivity. Qed.

Lemma checkpoints_only_at_first_iteration_and_epoch_ends_witness :
  last_it (num_iterations (toy.options (-1))) 0 = false ∧
  checkpoint (iterations_per_epoch (toy.options (-1)))
    (num_iterations (toy.options (-1))) 0 =
    first_it 0 || epoch_end (iterations_per_epoch (toy.options (-1))) 0 ∧
  epoch_end (iterations_per_epoch (toy.options (-1)))
    (num_iterations (toy.options (-1)) - 1) = true ∧
  ∀ s s' f,
    solver.iteration toy.model_loss toy.model_predict toy.update_rule toy.batch_mask
      toy.subsample_mask (toy.options (-1))
      (iterations_per_epoch (toy.options (-1))) (num_iterations (toy.options (-1)))
      0 s = Some (s', f) →
    if first_it 0 || epoch_end (iterations_per_epoch (toy.options (-1))) 0 then
      ∃ train_acc val_acc,
        train_acc_history s' = train_acc_history s ++ [train_acc] ∧
        val_acc_history s' = val_acc_history s ++ [val_acc]
    else
      train_acc_history s' = train_acc_history s ∧
      val_acc_history s' = val_acc_history s ∧ f = Continue.
Proof.
  apply (checkpoints_only_at_first_iteration_and_epoch_ends toy.model_loss
           toy.model_predict toy.update_rule toy.batch_mask toy.subsample_mask
           (toy.options (-1)) 0).
  - rewrite (proj2 (toy_iterations (-1))). lia.
  - rewrite (proj2 (toy_iterations (-1))). lia.
Defined.

Lemma train_without_positive_val_acc_empties_params_witness :
  toy.train (-1) = Some (toy.after (-1) ∅ 1 2 2) ∧
  none_positive (val_acc_history (toy.after (-1) ∅ 1 2 2)) ∧
  best_params (toy.after (-1) ∅ 1 2 2) = ∅ ∧
  model_params (toy.after (-1) ∅ 1 2 2) = ∅.
Proof.
  assert (Hacc : none_positive (val_acc_history (toy.after (-1) ∅ 1 2 2))).
  { repeat constructor; apply Qle_refl. }
  split; [exact toy_train|]. split; [exact Hacc|].
  exact (train_without_positive_val_acc_empties_params toy.model_loss
           toy.model_predict toy.update_rule toy.batch_mask toy.subsample_mask
           (toy.options (-1)) toy.params0 () (toy.after (-1) ∅ 1 2 2)
           toy_train Hacc).
Defined.

(** C4, at a run in which the model never predicts the validation label:
    all iterations run, the accuracies are checked after the first and
    after the second step, when the parameters are [{W1: 1}] and [{W1: 2}],
    and both validation accuracies are zero; [train] then leaves the empty
    dict as [model.params], which is neither of them. *)
Theorem train_leaves_no_params_when_val_acc_stays_zero :
  ∃ s0 s1 s',
    toy.iteration (-1) 0 (toy.solver0 (-1)) = Some (s0, Continue) ∧
    toy.iteration (-1) 1 s0 = Some (s1, Continue) ∧
    toy.train_loop (-1) = Some (s1, None) ∧
    toy.train (-1) = Some s' ∧
    model_params s0 = {["W1" := 1%nat]} ∧ val_acc_history s0 = [0%Q] ∧
    model_params s1 = {["W1" := 2%nat]} ∧ val_acc_history s1 = [0%Q; 0%Q] ∧
    val_acc_history s' = [0%Q; 0%Q] ∧
    model_params s' = ∅ ∧
    model_params s' ≠ model_params s0 ∧ model_params s' ≠ model_params s1.
Proof.
  exists (toy.after (-1) {["W1" := 1%nat]} 0 1 1),
    (toy.after (-1) {["W1" := 2%nat]} 1 2 2), (toy.after (-1) ∅ 1 2 2).
  split; [exact toy_first_iteration|]. split; [exact toy_second_iteration|].
  split; [exact toy_train_loop|]. split; [exact toy_train|].
  repeat (split; [reflexivity|]). simpl.
  split; intros H; apply (f_equal (λ m : gmap string nat, m !! "W1")) in H;
    vm_compute in H; discriminate H.
Qed.

(** C6, at a run with a patience of one epoch in which the first check
    finds the validation accuracy zero: an epoch has two iterations, and
    the loop is left by early stopping at the iteration 0, which is not the
    end of an epoch; one step has been made and the epoch counter is 0. *)
Theorem early_stopping_at_first_iteration_mid_epoch :
  ∃ s',
    early_stopping (toy.options 1) = 1 ∧
    iterations_per_epoch (toy.options 1) = 2 ∧
    toy.train_loop 1 = Some (s', Some 0) ∧
    epoch_end (iterations_per_epoch (toy.options 1)) 0 = false ∧
    first_it 0 = true ∧
    epoch s' = 0 ∧ length (loss_history s') = 1%nat ∧ val_acc_history s' = [0%Q].
Proof.
  exists (toy.after 1 ∅ 0 1 1).
  split; [reflexivity|]. split; [reflexivity|].
  split; [exact toy_train_loop_stops|]. repeat split; reflexivity.
Qed.
End solver_runs.

(** * Further properties of the code *)

(** ** Shapes and batch normalisation *)

Section shape_facts.
Import np layers spec shapes.
Local Open Scope R_scope.

Lemma sum_axis0_length (D : nat) (x : matrix) :
  has_rows D x → length (sum_axis0 D x) = D.
Proof.
  unfold sum_axis0, zeros. induction 1 as [|r x Hr _ IH]; simpl.
  - by rewrite length_replicate.
  - rewrite length_zip_with, IH, Hr. lia.
Qed.

Lemma nth_zip_with (f : R → R → R) (a b : vector) (j : nat) :
  (j < length a)%nat → (j < length b)%nat →
  nth j (zip_with f a b) 0 = f (nth j a 0) (nth j b 0).
Proof.
  revert b j. induction a as [|u a IH]; intros [|v b] [|j] Ha Hb; simpl in *;
    try lia; [done|]. apply IH; lia.
Qed.

Lemma nth_fmap (f : R → R) (a : vector) (j : nat) :
  (j < length a)%nat → nth j (f <$> a) 0 = f (nth j a 0).
Proof.
  revert j. induction a as [|u a IH]; intros [|j] Ha; simpl in *; try lia; [done|].
  apply IH; lia.
Qed.

Lemma sum_axis0_nth (D j : nat) (x : matrix) :
  has_rows D x → (j < D)%nat → nth j (sum_axis0 D x) 0 = column_sum j x.
Proof.
  intros Hx Hj. unfold column_sum, sum, sum_axis0. induction Hx as [|r x Hr Hx IH]; csimpl.
  - unfold zeros. by rewrite nth_lookup, lookup_replicate_2.
  - rewrite nth_zip_with; [by rewrite IH|lia|].
    fold (sum_axis0 D x). rewrite sum_axis0_length; done.
Qed.

Lemma vector_eq_nth (a b : vector) :
  length a = length b → (∀ j, (j < length a)%nat → nth j a 0 = nth j b 0) → a = b.
Proof. intros Hl H. apply (nth_ext a b 0 0 Hl H). Qed.

Lemma rows_shape (f : R → R → R) (N D : nat) (x : matrix) (v : vector) :
  has_shape N D x → length v = D → has_shape N D (rows f x v).
Proof.
  intros [HN Hx] Hv. unfold rows, has_shape, has_rows. rewrite length_fmap.
  split; [done|]. apply Forall_fmap. eapply Forall_impl; [exact Hx|].
  intros r Hr. simpl in *. rewrite length_zip_with. lia.
Qed.


Lemma map2_shape (f : R → R) (N D : nat) (x : matrix) :
  has_shape N D x → has_shape N D (map2 f x).
Proof.
  intros [HN Hx]. unfold map2, has_shape, has_rows. rewrite length_fmap.
  split; [done|]. apply Forall_fmap. eapply Forall_impl; [exact Hx|].
  intros r Hr. simpl. by rewrite length_fmap.
Qed.

Lemma column_sum_rows (f : R → R → R) (D j : nat) (x : matrix) (v : vector) :
  has_rows D x → length v = D → (j < D)%nat →
  column_sum j (rows f x v) = sum ((λ r, f (nth j r 0) (nth j v 0)) <$> x).
Proof.
  intros Hx Hv Hj. unfold column_sum, rows. rewrite <- list_fmap_compose.
  f_equal. apply Forall_fmap_ext. eapply Forall_impl; [exact Hx|].
  intros r Hr. simpl in *. apply nth_zip_with; lia.
Qed.



Lemma sum_fmap_linear (g : vector → R) (c d : R) (x : matrix) :
  sum ((λ r, g r * c + d) <$> x) = sum (g <$> x) * c + INR (length x) * d.
Proof.
  unfold sum. induction x as [|r x IH]; [simpl; lra|].
  rewrite !fmap_cons. cbn [foldr]. rewrite IH.
  change (length (r :: x)) with (S (length x)). rewrite S_INR. lra.
Qed.

Lemma sum_fmap_minus (g : vector → R) (m : R) (x : matrix) :
  sum ((λ r, g r - m) <$> x) = sum (g <$> x) - INR (length x) * m.
Proof.
  unfold sum. induction x as [|r x IH]; [simpl; lra|].
  rewrite !fmap_cons. cbn [foldr]. rewrite IH.
  change (length (r :: x)) with (S (length x)). rewrite S_INR. lra.
Qed.


Lemma sum_fmap_mult_r (g : vector → R) (c : R) (x : matrix) :
  sum ((λ r, g r * c) <$> x) = sum (g <$> x) * c.
Proof.
  unfold sum. induction x as [|r x IH]; [simpl; lra|].
  rewrite !fmap_cons. cbn [foldr]. rewrite IH. lra.
Qed.


Lemma shape_has_shape (N D : nat) (x : matrix) :
  has_shape N D x → N ≠ 0%nat → shape x = (N, D).
Proof.
  intros [HN Hx] HN0. unfold shape. destruct x as [|r x]; simpl in *; [lia|].
  apply Forall_cons in Hx as [Hr _]. by rewrite HN, Hr.
Qed.

(** The cache of a training-time call, entry by entry. *)
Lemma batchnorm_forward_cache (x : matrix) (gamma beta : vector) (bn bn' : pydict)
    (out : matrix) (cache : bn_cache) :
  batchnorm_forward x gamma beta bn = Some (out, Some cache, bn') →
  let N := fst (shape x) in
  let D := snd (shape x) in
  let sample_mean := (λ s, s / INR N) <$> sum_axis0 D x in
  let x_minus_mean := rows Rminus x sample_mean in
  let var := (λ s, 1 / INR N * s) <$> sum_axis0 D (map2 (λ a, a ^ 2) x_minus_mean) in
  N ≠ 0%nat ∧
  c_x_minus_mean cache = x_minus_mean ∧
  c_var cache = var ∧
  c_sqrtvar cache = (λ v, sqrt (v + c_eps cache)) <$> var ∧
  c_ivar cache = (λ s, 1 / s) <$> c_sqrtvar cache ∧
  c_x_norm cache = rows Rmult x_minus_mean (c_ivar cache) ∧
  c_gamma cache = gamma ∧ c_beta cache = beta ∧ c_out cache = out ∧
  out = rows Rplus (rows (λ xn g, g * xn) (c_x_norm cache) gamma) beta.
Proof.
  unfold batchnorm_forward. generalize (shape x). intros [N D] H.
  destruct (get_str bn "mode") as [mode|]; [|done].
  destruct (get_float bn "eps" _) as [eps|]; [|done].
  destruct (get_float bn "momentum" _) as [momentum|]; [|done].
  destruct (get_array bn "running_mean" _) as [rm|]; [|done].
  destruct (get_array bn "running_var" _) as [rv|]; [|done].
  simpl in H. repeat case_decide; simplify_eq/=. repeat split; done.
Qed.


Lemma batchnorm_x_norm_shape (N D : nat) (x : matrix) (gamma beta : vector)
    (bn bn' : pydict) (out : matrix) (cache : bn_cache) :
  has_shape N D x →
  batchnorm_forward x gamma beta bn = Some (out, Some cache, bn') →
  N ≠ 0%nat ∧ has_shape N D (c_x_minus_mean cache) ∧
  length (c_var cache) = D ∧ length (c_sqrtvar cache) = D ∧
  length (c_ivar cache) = D ∧ has_shape N D (c_x_norm cache).
Proof.
  intros Hx H. pose proof (batchnorm_forward_cache _ _ _ _ _ _ _ H) as Hc.
  cbv zeta in Hc. destruct Hc as (HN & Hxm & Hvar & Hsq & Hiv & Hxn & _).
  assert (HN' : N ≠ 0%nat).
  { destruct Hx as [HlN _]. rewrite <- HlN. exact HN. }
  rewrite (shape_has_shape N D x Hx HN') in *. simpl in *.
  assert (Sxm : has_shape N D (c_x_minus_mean cache)).
  { rewrite Hxm. apply rows_shape; [done|].
    rewrite length_fmap. apply sum_axis0_length. by destruct Hx. }
  assert (Lvar : length (c_var cache) = D).
  { rewrite Hvar, length_fmap. apply sum_axis0_length.
    rewrite <- Hxm. by destruct (map2_shape (λ a, a ^ 2) N D _ Sxm). }
  assert (Lsq : length (c_sqrtvar cache) = D)
    by (by rewrite Hsq, length_fmap, <- Hvar).
  assert (Liv : length (c_ivar cache) = D) by (by rewrite Hiv, length_fmap).
  repeat (split; [done|]). rewrite Hxn, <- Hxm. by apply rows_shape.
Qed.

Lemma batchnorm_x_norm_column_sum (N D j : nat) (x : matrix) (gamma beta : vector)
    (bn bn' : pydict) (out : matrix) (cache : bn_cache) :
  has_shape N D x →
  batchnorm_forward x gamma beta bn = Some (out, Some cache, bn') →
  (j < D)%nat → column_sum j (c_x_norm cache) = 0.
Proof.
  intros Hx H Hj.
  destruct (batchnorm_x_norm_shape _ _ _ _ _ _ _ _ _ Hx H)
    as (HN & Sxm & Lvar & Lsq & Liv & Sxn).
  pose proof (batchnorm_forward_cache _ _ _ _ _ _ _ H) as Hc.
  cbv zeta in Hc. destruct Hc as (_ & Hxm & _ & _ & _ & Hxn & _).
  rewrite (shape_has_shape N D x Hx HN) in *. simpl in *.
  rewrite Hxn, <- Hxm. destruct Sxm as [LN Sxm].
  rewrite (column_sum_rows _ D) by done.
  rewrite (sum_fmap_mult_r (λ r, nth j r 0)).
  fold (column_sum j (c_x_minus_mean cache)). rewrite Hxm.
  destruct Hx as [HlN Hx].
  rewrite (column_sum_rows _ D);
    [|done|by rewrite length_fmap, sum_axis0_length|done].
  rewrite (sum_fmap_minus (λ r, nth j r 0)). fold (column_sum j x).
  rewrite nth_fmap by (by rewrite sum_axis0_length).
  rewrite sum_axis0_nth by done. rewrite HlN.
  assert (INR N ≠ 0) by (by apply not_0_INR). field. done.
Qed.


(** X2. A batch of one example: the training-time output is [beta], whatever
    the input is ([eps] positive). *)
Theorem batchnorm_forward_train_single (r gamma beta : vector) (bn bn' : pydict)
    (out : matrix) (cache : bn_cache) (e : R) :
  length gamma = length r → length beta = length r →
  get_float bn "eps" 1e-5 = Some e → 0 < e →
  batchnorm_forward [r] gamma beta bn = Some (out, Some cache, bn') →
  out = [beta].
Proof.
  intros Hg Hb _ _ H.
  assert (Hx : has_shape 1 (length r) [r]) by (split; [done|by repeat constructor]).
  destruct (batchnorm_x_norm_shape _ _ _ _ _ _ _ _ _ Hx H)
    as (_ & _ & _ & _ & _ & [Ln Sxn]).
  pose proof (batchnorm_forward_cache _ _ _ _ _ _ _ H) as Hc.
  cbv zeta in Hc. destruct Hc as (_ & _ & _ & _ & _ & _ & _ & _ & _ & Hout).
  destruct (c_x_norm cache) as [|xn [|]] eqn:Hxn; simplify_eq/=.
  apply Forall_inv in Sxn. f_equal. apply vector_eq_nth.
  - rewrite !length_zip_with. lia.
  - intros j Hj. rewrite !length_zip_with in Hj.
    pose proof (batchnorm_x_norm_column_sum 1 (length r) j _ _ _ _ _ _ _ Hx H
                  ltac:(lia)) as Hcol.
    rewrite Hxn in Hcol. unfold column_sum, sum in Hcol. simpl in Hcol.
    rewrite !nth_zip_with by (rewrite ?length_zip_with; lia).
    replace (nth j xn 0) with 0 by lra. lra.
Qed.

(** X3. What a call leaves in the state record: only the running statistics
    are written; a test-time call on a record that has both leaves it as it
    was and returns no cache, and on a record that has no running variance
    it stores the zero array. *)
Theorem batchnorm_forward_state (x : matrix) (gamma beta : vector) (bn bn' : pydict)
    (out : matrix) (cache : option bn_cache) :
  batchnorm_forward x gamma beta bn = Some (out, cache, bn') →
  (∀ k, k ≠ "running_mean" → k ≠ "running_var" → bn' !! k = bn !! k) ∧
  (get_str bn "mode" = Some "test" →
   cache = None ∧
   (∀ rm rv, bn !! "running_mean" = Some (VArr rm) →
             bn !! "running_var" = Some (VArr rv) → bn' = bn) ∧
   (bn !! "running_var" = None →
    bn' !! "running_var" = Some (VArr (zeros (snd (shape x)))))).
Proof.
  unfold batchnorm_forward. generalize (shape x). intros [N D] H.
  destruct (get_str bn "mode") as [mode|]; [|done].
  destruct (get_float bn "eps" _) as [eps|]; [|done].
  destruct (get_float bn "momentum" _) as [momentum|]; [|done].
  destruct (get_array bn "running_mean" _) as [rm|] eqn:Hrm; [|done].
  destruct (get_array bn "running_var" _) as [rv|] eqn:Hrv; [|done].
  simpl in H.
  destruct (if decide (mode = "train") then _ else _) as [[[[o c] rm'] rv']|] eqn:Hb;
    simplify_eq/=.
  split.
  - intros k H1 H2. by rewrite !lookup_insert_ne.
  - intros [= ->]. rewrite decide_False in Hb by done.
    rewrite decide_True in Hb by done. simplify_eq. split; [done|]. split.
    + intros rm rv Hm Hv. unfold get_array in *. rewrite Hm in Hrm. rewrite Hv in Hrv.
      simplify_eq. rewrite (insert_id _ "running_mean") by done.
      by rewrite insert_id.
    + intros Hnone. rewrite (get_array_default _ _ _ Hnone) in Hrv. simplify_eq.
      by rewrite lookup_insert_eq.
Qed.

(** X4. The calls that raise: a record without a mode, a mode that is neither
    ['train'] nor ['test'], and an empty batch at training time. *)
Theorem batchnorm_forward_raises (x : matrix) (gamma beta : vector) (bn : pydict) :
  get_str bn "mode" = None ∨
  (∃ mode, get_str bn "mode" = Some mode ∧ mode ≠ "train" ∧ mode ≠ "test") ∨
  (get_str bn "mode" = Some "train" ∧ x = []) →
  batchnorm_forward x gamma beta bn = None.
Proof.
  unfold batchnorm_forward. intros [H|[(mode & H & H1 & H2)|[H ->]]]; rewrite H.
  - done.
  - simpl. destruct (get_float bn "eps" _); [|done].
    destruct (get_float bn "momentum" _); [|done]. simpl.
    destruct (shape x). destruct (get_array bn "running_mean" _); [|done].
    destruct (get_array bn "running_var" _); [|done]. simpl.
    rewrite !decide_False by done. done.
  - simpl. destruct (get_float bn "eps" _); [|done].
    destruct (get_float bn "momentum" _); [|done]. simpl.
    destruct (get_array bn "running_mean" _); [|done].
    destruct (get_array bn "running_var" _); [|done]. done.
Qed.



End shape_facts.

(** ** Affine, ReLU, dropout and softmax layers *)

Section layer_facts.
Import np layers spec shapes.
Local Open Scope R_scope.

Lemma dot_shape (N M : nat) (x w : matrix) :
  length x = N → has_rows M w → snd (shape w) = M → has_shape N M (dot x w).
Proof.
  intros HN Hw HM. unfold dot, has_shape, has_rows. rewrite length_fmap, HM.
  split; [done|]. apply Forall_fmap, Forall_forall. intros r _. simpl.
  apply sum_axis0_length. apply Forall_lookup. intros i v Hi.
  apply lookup_zip_with_Some in Hi as (a & wr & -> & _ & Hwr).
  rewrite length_fmap. by eapply (Forall_lookup_1 _ _ _ _ Hw).
Qed.

Lemma transpose_shape (N D : nat) (x : matrix) :
  length x = N → has_shape D N (transpose D x).
Proof.
  intros HN. unfold transpose, has_shape, has_rows.
  rewrite length_fmap, length_seq. split; [done|].
  apply Forall_fmap, Forall_forall. intros j _. simpl. by rewrite length_fmap.
Qed.

Lemma shape_snd (N D : nat) (x : matrix) :
  has_shape N D x → N ≠ 0%nat → snd (shape x) = D.
Proof. intros Hx HN. by rewrite (shape_has_shape N D x Hx HN). Qed.

(** X6. The shapes of the affine layer, for N, D and M not zero: the output
    has the shape (N, M), and the gradients have the shapes of the input,
    of the weights and of the biases. *)
Theorem affine_shapes (N D M : nat) (x w dout : matrix) (b : vector) :
  N ≠ 0%nat → D ≠ 0%nat → M ≠ 0%nat →
  has_shape N D x → has_shape D M w → length b = M → has_shape N M dout →
  has_shape N M (affine_forward x w b).1 ∧
  has_shape N D (affine_backward dout (affine_forward x w b).2).1.1 ∧
  has_shape D M (affine_backward dout (affine_forward x w b).2).1.2 ∧
  length (affine_backward dout (affine_forward x w b).2).2 = M.
Proof.
  intros HN HD HM Hx Hw Hb Hd. unfold affine_forward, affine_backward.
  cbn [fst snd].
  pose proof (shape_snd _ _ _ Hx HN) as Sx. pose proof (shape_snd _ _ _ Hw HD) as Sw.
  pose proof (shape_snd _ _ _ Hd HN) as Sd.
  destruct Hx as [Lx Rx]. destruct Hw as [Lw Rw]. destruct Hd as [Ld Rd].
  split; [|split; [|split]].
  - apply rows_shape; [|done]. by apply dot_shape.
  - rewrite Sw. destruct (transpose_shape D M w Lw) as [Lt Rt].
    apply dot_shape; [done|done|].
    unfold shape, transpose. simpl. destruct M; [done|]. simpl.
    by rewrite length_fmap.
  - rewrite Sx. destruct (transpose_shape N D x Lx) as [Lt Rt].
    by apply dot_shape.
  - rewrite Sd. by apply sum_axis0_length.
Qed.

(** X7. [relu_forward] is the maximum of the input and zero, entry by entry,
    and keeps the input as its cache. *)
Theorem relu_forward_max (x : matrix) (i j : nat) (a : R) :
  item x i j = Some a →
  item (relu_forward x).1 i j = Some (Rmax a 0) ∧ (relu_forward x).2 = x.
Proof.
  intros Ha. split; [|done]. unfold relu_forward. simpl.
  assert (Hg : item (map2 gt0 x) i j = Some (gt0 a)).
  { unfold item, map2 in *. rewrite list_lookup_fmap.
    destruct (x !! i) as [r|]; [|done]. simpl in *.
    by rewrite list_lookup_fmap, Ha. }
  rewrite (item_elementwise _ _ _ _ _ _ _ Ha Hg). f_equal.
  unfold gt0, Rmax. destruct (Rgt_dec a 0), (Rle_dec a 0); lra.
Qed.



Lemma sum_ge_entry (f : R → R) (r : vector) (a : R) :
  (∀ b, 0 <= f b) → a ∈ r → f a <= sum (f <$> r).
Proof.
  intros Hf. unfold sum. induction r as [|b r IH]; intros Ha; csimpl.
  - by apply elem_of_nil in Ha.
  - assert (0 <= foldr Rplus 0 (f <$> r)).
    { clear -Hf. induction r as [|c r IH]; csimpl; [lra|]. pose proof (Hf c). lra. }
    apply elem_of_cons in Ha as [->|Ha]; [lra|].
    pose proof (Hf b). pose proof (IH Ha). lra.
Qed.

Lemma row_probs_range (r : vector) (m p : R) :
  p ∈ row_probs r m → 0 < p <= 1.
Proof.
  unfold row_probs. intros (a & -> & Ha)%list_elem_of_fmap.
  assert (Hr : r ≠ []) by (intros ->; by apply elem_of_nil in Ha).
  pose proof (sum_exp_pos (λ b, b - m) r Hr) as HS.
  pose proof (sum_ge_entry (λ b, exp (b - m)) r a
                (λ b, Rlt_le _ _ (exp_pos (b - m))) Ha) as Hle.
  pose proof (exp_pos (a - m)) as He. simpl in *. split.
  - by apply Rdiv_lt_0_compat.
  - apply (Rmult_le_reg_r (sum ((λ b, exp (b - m)) <$> r))); [done|].
    field_simplify; [lra|lra].
Qed.


Lemma sum_ln_nonpos (v : vector) :
  Forall (λ p, 0 < p <= 1) v → sum (ln <$> v) <= 0.
Proof.
  unfold sum. induction 1 as [|p v [Hp0 Hp1] _ IH]; csimpl; [lra|].
  assert (ln p <= 0).
  { destruct (Req_dec p 1) as [->|Hne]; [rewrite ln_1; lra|].
    rewrite <- ln_1. apply Rlt_le, ln_increasing; lra. }
  lra.
Qed.

(** X11. The loss of a batch that is not empty is not negative. *)
Theorem softmax_loss_nonneg (x : matrix) (y : list Z) (loss : R) (dx : matrix) :
  x ≠ [] → softmax_loss x y = Some (loss, dx) → 0 <= loss.
Proof.
  intros _ H. unfold softmax_loss in H.
  destruct (softmax_probs x) as [probs|] eqn:Hprobs; simplify_eq/=.
  destruct (pick probs y) as [picked|] eqn:Hpick; simplify_eq/=.
  destruct (subtract_one_at probs y) as [dx'|]; simplify_eq/=.
  pose proof (softmax_probs_rows _ _ Hprobs) as Hrows.
  assert (Hp : Forall (λ p, 0 < p <= 1) picked).
  { unfold pick in Hpick. case_decide; [|done].
    apply mapM_Some in Hpick. apply Forall_lookup. intros i p Hi.
    destruct (Forall2_lookup_r _ _ _ _ _ Hpick Hi) as ([r k] & Hz & Hrk).
    apply lookup_zip_with_Some in Hz as (r' & k' & [= <- <-] & Hr & Hk).
    simpl in Hrk. destruct (index (length r) k) as [j|]; simplify_eq/=.
    destruct (Forall2_lookup_r _ _ _ _ _ Hrows Hr) as (r0 & _ & m & _ & ->).
    apply (row_probs_range r0 m). by eapply list_elem_of_lookup_2. }
  pose proof (sum_ln_nonpos picked Hp). pose proof (pos_INR (length x)) as HN.
  unfold Rdiv. destruct (Req_dec (INR (length x)) 0) as [->|Hne].
  - rewrite Rinv_0. lra.
  - assert (0 < / INR (length x)) by (apply Rinv_0_lt_compat; lra). nra.
Qed.

Lemma index_wrap (C : nat) (k : Z) :
  (- Z.of_nat C ≤ k)%Z → index C (wrap_label C k) = index C k.
Proof.
  intros Hk. unfold index, wrap_label. case_decide.
  - repeat case_bool_decide; try lia; f_equal; lia.
  - done.
Qed.

Lemma mapM_ext_zip {A B C' : Type} (f g : A * B → option C') (l : list A) (k k' : list B) :
  length k = length k' →
  (∀ i a b b', l !! i = Some a → k !! i = Some b → k' !! i = Some b' →
               f (a, b) = g (a, b')) →
  mapM f (zip l k) = mapM g (zip l k').
Proof.
  revert k k'. induction l as [|a l IH]; intros k k' Hl H; [done|].
  destruct k as [|b k], k' as [|b' k']; try done.
  change (f (a, b) ≫= (λ y, mapM f (zip l k) ≫= λ t, mret (y :: t)) =
          g (a, b') ≫= (λ y, mapM g (zip l k') ≫= λ t, mret (y :: t))).
  rewrite (H 0%nat a b b') by done.
  assert (IH' : mapM f (zip l k) = mapM g (zip l k')).
  { apply IH; [by injection Hl|]. intros i. apply (H (S i)). }
  destruct (g (a, b')) as [c|]; [|done]. simpl.
  exact (f_equal (λ o, o ≫= λ t, mret (c :: t)) IH').
Qed.

(** X12. A label from [-C] to [-1] is taken as the class [C + k]: the loss and
    the gradient are those of the wrapped labels. *)
Theorem softmax_loss_negative_labels (x : matrix) (y : list Z) (C : nat) :
  has_rows C x → Forall (λ k, (- Z.of_nat C ≤ k < Z.of_nat C)%Z) y →
  softmax_loss x y = softmax_loss x (wrap_label C <$> y) ∧
  labels_in_range C (wrap_label C <$> y).
Proof.
  intros Hx Hy. split; [|apply Forall_fmap; eapply Forall_impl; [exact Hy|];
    intros k Hk; unfold wrap_label; simpl in *; case_decide; lia].
  unfold softmax_loss.
  destruct (softmax_probs x) as [probs|] eqn:Hprobs; [|done]. simpl.
  pose proof (softmax_probs_rows _ _ Hprobs) as Hrows.
  assert (HpC : has_rows C probs).
  { apply Forall_lookup. intros i p Hp.
    destruct (Forall2_lookup_r _ _ _ _ _ Hrows Hp) as (r & Hr & m & _ & ->).
    rewrite row_probs_length. by eapply (Forall_lookup_1 _ _ _ _ Hx). }
  assert (Hpick : pick probs y = pick probs (wrap_label C <$> y)).
  { unfold pick. rewrite length_fmap. case_decide; [|done].
    apply mapM_ext_zip; [by rewrite length_fmap|].
    intros i r k k' Hr Hk Hk'. rewrite list_lookup_fmap, Hk in Hk'. simplify_eq/=.
    rewrite (Forall_lookup_1 _ _ _ _ HpC Hr).
    rewrite index_wrap; [done|]. by destruct (Forall_lookup_1 _ _ _ _ Hy Hk). }
  assert (Hsub : subtract_one_at probs y = subtract_one_at probs (wrap_label C <$> y)).
  { unfold subtract_one_at. rewrite length_fmap. case_decide; [|done].
    apply mapM_ext_zip; [by rewrite length_fmap|].
    intros i r k k' Hr Hk Hk'. rewrite list_lookup_fmap, Hk in Hk'. simplify_eq/=.
    rewrite (Forall_lookup_1 _ _ _ _ HpC Hr).
    rewrite index_wrap; [done|]. by destruct (Forall_lookup_1 _ _ _ _ Hy Hk). }
  by rewrite Hpick, Hsub.
Qed.

(** X13. The calls that raise: an empty row of scores, a number of labels that
    is not the number of rows (neither number being one, which NumPy
    broadcasts), and a label outside [[-C, C)]. *)
Theorem softmax_loss_raises (x : matrix) (y : list Z) (C : nat) :
  Exists (λ r, r = []) x ∨
  (length y ≠ length x ∧ length y ≠ 1%nat ∧ length x ≠ 1%nat) ∨
  (has_rows C x ∧ length y = length x ∧
   Exists (λ k, ¬ (- Z.of_nat C ≤ k < Z.of_nat C)%Z) y) →
  softmax_loss x y = None.
Proof.
  intros H. unfold softmax_loss.
  destruct (softmax_probs x) as [probs|] eqn:Hprobs; [|done]. simpl.
  pose proof (softmax_probs_rows _ _ Hprobs) as Hrows.
  pose proof (Forall2_length _ _ _ Hrows) as Hlen.
  destruct H as [H|[(H & _ & _)|(Hx & Hl & H)]].
  - exfalso. apply Exists_exists in H as (r & Hr & ->).
    apply list_elem_of_lookup in Hr as [i Hi].
    destruct (Forall2_lookup_l _ _ _ _ _ Hrows Hi) as (p & _ & m & Hm & _). done.
  - unfold pick. rewrite decide_False by lia. done.
  - assert (Hpick : pick probs y = None); [|by rewrite Hpick].
    unfold pick. rewrite decide_True by lia.
    apply mapM_None. apply Exists_exists in H as (k & Hk & Hbad).
    apply list_elem_of_lookup in Hk as [i Hi].
    destruct (lookup_lt_is_Some_2 probs i) as [p Hp].
    { rewrite <- Hlen, <- Hl. by eapply lookup_lt_Some. }
    apply Exists_exists. exists (p, k). split.
    + apply list_elem_of_lookup. exists i. rewrite lookup_zip_with, Hp. simpl.
      by rewrite Hi.
    + simpl. destruct (Forall2_lookup_r _ _ _ _ _ Hrows Hp) as (r & Hr & m & _ & ->).
      rewrite row_probs_length, (Forall_lookup_1 _ _ _ _ Hx Hr).
      unfold index. rewrite !bool_decide_eq_false_2 by lia. done.
Qed.
End layer_facts.

(** ** Layers at concrete inputs *)

Section layer_runs.
Import np layers spec shapes runs.
Local Open Scope R_scope.

Lemma affine_shapes_witness :
  has_shape 1 1 (affine_forward [[1; 2]] [[1]; [1]] [0]).1 ∧
  has_shape 1 2 (affine_backward [[1]] (affine_forward [[1; 2]] [[1]; [1]] [0]).2).1.1 ∧
  has_shape 2 1 (affine_backward [[1]] (affine_forward [[1; 2]] [[1]; [1]] [0]).2).1.2 ∧
  length (affine_backward [[1]] (affine_forward [[1; 2]] [[1]; [1]] [0]).2).2 = 1%nat.
Proof.
  apply (affine_shapes 1 2 1 [[1; 2]] [[1]; [1]] [[1]] [0]);
    try lia; try reflexivity; (split; [reflexivity|repeat constructor]).
Defined.

Lemma relu_forward_max_witness :
  item (relu_forward [[2; -3]]).1 0 1 = Some (Rmax (-3) 0) ∧
  (relu_forward [[2; -3]]).2 = [[2; -3]].
Proof. apply (relu_forward_max [[2; -3]] 0 1 (-3)). reflexivity. Defined.

Lemma batchnorm_forward_train_Some (x : matrix) (gamma beta : vector) :
  x ≠ [] →
  ∃ out cache bn',
    batchnorm_forward x gamma beta bn_train = Some (out, Some cache, bn').
Proof.
  intros Hx. unfold batchnorm_forward.
  replace (get_str bn_train "mode") with (Some "train") by reflexivity.
  replace (get_float bn_train "eps" 1e-5) with (Some 1e-5) by reflexivity.
  replace (get_float bn_train "momentum" 0.9) with (Some 0.9) by reflexivity.
  cbn [mbind option_bind]. unfold shape.
  rewrite !get_array_default by reflexivity. cbn [mbind option_bind].
  rewrite decide_True by done. rewrite decide_False by (by destruct x).
  cbn [mbind option_bind]. eauto.
Qed.


Lemma batchnorm_forward_train_single_witness :
  ∃ cache bn',
    batchnorm_forward [[5; 7]] [1; 1] [2; 3] bn_train = Some ([[2; 3]], Some cache, bn').
Proof.
  destruct (batchnorm_forward_train_Some [[5; 7]] [1; 1] [2; 3])
    as (out & cache & bn' & H); [done|].
  exists cache, bn'.
  rewrite <- (batchnorm_forward_train_single [5; 7] [1; 1] [2; 3] bn_train bn' out
                cache 1e-5 eq_refl eq_refl eq_refl ltac:(lra) H).
  exact H.
Defined.

Lemma batchnorm_forward_state_witness :
  let bn' := <["running_var" := VArr [0; 0]]>
               (<["running_mean" := VArr [0; 0]]> bn_test) in
  bn' !! "mode" = bn_test !! "mode" ∧
  bn' !! "running_var" = Some (VArr (zeros 2)).
Proof.
  destruct (batchnorm_forward_state _ _ _ _ _ _ _ batchnorm_forward_fresh_test)
    as [Hk Ht].
  split.
  - apply Hk; discriminate.
  - apply (Ht eq_refl). reflexivity.
Defined.

Lemma batchnorm_forward_raises_witness :
  batchnorm_forward [[1]] [1] [1] ∅ = None ∧
  batchnorm_forward [] [1] [1] bn_train = None.
Proof.
  split.
  - apply batchnorm_forward_raises. left. reflexivity.
  - apply batchnorm_forward_raises. right. right. split; reflexivity.
Defined.





Lemma softmax_loss_runs :
  ∃ loss dx, softmax_loss [[1; 3]] [1%Z] = Some (loss, dx).
Proof. do 2 eexists. vm_compute. reflexivity. Qed.

Lemma softmax_loss_nonneg_witness :
  ∃ loss dx, softmax_loss [[1; 3]] [1%Z] = Some (loss, dx) ∧ 0 <= loss.
Proof.
  destruct softmax_loss_runs as (loss & dx & H).
  exists loss, dx. split; [exact H|].
  apply (softmax_loss_nonneg [[1; 3]] [1%Z] loss dx); [discriminate|exact H].
Defined.

Lemma softmax_loss_negative_labels_witness :
  softmax_loss [[1; 3]] [(-1)%Z] = softmax_loss [[1; 3]] (wrap_label 2 <$> [(-1)%Z]) ∧
  labels_in_range 2 (wrap_label 2 <$> [(-1)%Z]).
Proof.
  apply (softmax_loss_negative_labels [[1; 3]] [(-1)%Z] 2).
  - repeat constructor.
  - repeat constructor; lia.
Defined.

Lemma softmax_loss_raises_witness :
  softmax_loss [[1; 3]] [2%Z] = None ∧ softmax_loss [[]] [0%Z] = None.
Proof.
  split.
  - apply (softmax_loss_raises [[1; 3]] [2%Z] 2). right. right.
    split; [repeat constructor|]. split; [reflexivity|].
    apply Exists_cons_hd. lia.
  - apply (softmax_loss_raises [[]] [0%Z] 0). left. apply Exists_cons_hd. reflexivity.
Defined.
End layer_runs.

(** ** Networks *)

Section net_call_facts.
Import np layers fc_net spec shapes net_state.
Local Open Scope R_scope.

(** X14. A call of [loss] on a network whose parameter store lacks one of the
    four parameters raises, with or without labels. *)
Theorem TwoLayerNet_loss_missing_param (self : TwoLayerNet) (X : matrix)
    (y : option (list Z)) (k : string) :
  k ∈ ["W1"; "b1"; "W2"; "b2"] → tl_params self !! k = None →
  TwoLayerNet_loss self X y = None.
Proof.
  intros Hk Hnone. unfold TwoLayerNet_loss, get_mat, get_vec.
  repeat (apply elem_of_cons in Hk as [->|Hk]); [..|by apply elem_of_nil in Hk].
  - by rewrite Hnone.
  - destruct (tl_params self !! "W1") as [[]|]; try done. by rewrite Hnone.
  - destruct (tl_params self !! "W1") as [[]|]; try done.
    destruct (tl_params self !! "b1") as [[]|]; try done. by rewrite Hnone.
  - destruct (tl_params self !! "W1") as [[]|]; try done.
    destruct (tl_params self !! "b1") as [[]|]; try done.
    destruct (tl_params self !! "W2") as [[]|]; try done. by rewrite Hnone.
Qed.

(** X15. A call of [loss] on a fully-connected network with an empty parameter
    store raises, with or without labels. *)
Theorem FullyConnectedNet_loss_empty_params (rand : nat → matrix)
    (self : FullyConnectedNet) (X : matrix) (y : option (list Z)) :
  params self = ∅ → FullyConnectedNet_loss rand self X y = None.
Proof.
  intros He. unfold FullyConnectedNet_loss.
  destruct (for_each _ _ _) as [s|] eqn:Hf; [|done]. simpl.
  unfold get_mat at 1. simpl. by rewrite He, lookup_empty.
Qed.

Lemma same_modes_refl l : same_modes l l.
Proof. split; [done|]. intros i bn bn' H1 H2. by simplify_eq. Qed.

Lemma same_modes_trans l1 l2 l3 :
  same_modes l1 l2 → same_modes l2 l3 → same_modes l1 l3.
Proof.
  intros [L1 H1] [L2 H2]. split; [lia|]. intros i bn bn' Hi Hi'.
  destruct (lookup_lt_is_Some_2 l2 i) as [bn2 Hbn2].
  { rewrite L1. by eapply lookup_lt_Some. }
  rewrite (H2 i bn2 bn' Hbn2 Hi'). by apply (H1 i).
Qed.

Lemma batchnorm_forward_other_keys (x : matrix) (gamma beta : vector) (bn bn' : pydict)
    (out : matrix) (cache : option bn_cache) (k : string) :
  batchnorm_forward x gamma beta bn = Some (out, cache, bn') →
  k ≠ "running_mean" → k ≠ "running_var" → bn' !! k = bn !! k.
Proof.
  unfold batchnorm_forward. generalize (shape x). intros [N D] H H1 H2.
  destruct (get_str bn "mode") as [mode|]; [|done].
  destruct (get_float bn "eps" _) as [eps|]; [|done].
  destruct (get_float bn "momentum" _) as [momentum|]; [|done].
  destruct (get_array bn "running_mean" _) as [rm|] eqn:Hrm; [|done].
  destruct (get_array bn "running_var" _) as [rv|] eqn:Hrv; [|done].
  simpl in H.
  destruct (if decide (mode = "train") then _ else _) as [[[[o c] rm'] rv']|] eqn:Hb;
    simplify_eq/=.
  by rewrite !lookup_insert_ne.
Qed.

Lemma forward_layer_frame rand self s i s' :
  forward_layer rand self s i = Some s' →
  same_modes (f_bn_params s) (f_bn_params s').
Proof.
  unfold forward_layer. intros H.
  destruct (get_mat (params self) (key "W" i)) as [W|]; [|done].
  destruct (get_vec (params self) (key "b" i)) as [b|]; [|done].
  cbn [mbind option_bind] in H.
  destruct (affine_forward (f_l_out s) W b) as [l_out c_affine].
  destruct (use_batchnorm self).
  - destruct (get_vec (params self) (key "gamma" i)) as [gamma|]; [|done].
    destruct (get_vec (params self) (key "beta" i)) as [beta|]; [|done].
    destruct (f_bn_params s !! i) as [bn|] eqn:Hbn; [|done].
    cbn [mbind option_bind] in H.
    destruct (batchnorm_forward l_out gamma beta bn) as [[[o c] bn']|] eqn:Hf; [|done].
    cbn [mbind option_bind] in H.
    destruct (relu_forward o) as [o1 c_relu].
    destruct (if use_dropout self then _ else _) as [[o' c']|]; [|done].
    cbn [mbind option_bind] in H. injection H as <-. cbn [f_bn_params].
    split; [by rewrite length_insert|]. intros j b1 b2 Hj Hj'.
    destruct (decide (i = j)) as [->|Hne].
    + rewrite list_lookup_insert_eq in Hj' by (by eapply lookup_lt_Some).
      simplify_eq. by eapply batchnorm_forward_other_keys.
    + rewrite list_lookup_insert_ne in Hj' by done. by simplify_eq.
  - cbn [mbind option_bind] in H. destruct (relu_forward l_out) as [o1 c_relu].
    destruct (if use_dropout self then _ else _) as [[o' c']|]; [|done].
    cbn [mbind option_bind] in H. injection H as <-. apply same_modes_refl.
Qed.

Lemma forward_layers_frame rand self l s s' :
  for_each (forward_layer rand self) s l = Some s' →
  same_modes (f_bn_params s) (f_bn_params s').
Proof.
  revert s. induction l as [|i l IH]; intros s H.
  - simplify_eq/=. apply same_modes_refl.
  - rewrite for_each_cons in H.
    destruct (forward_layer rand self s i) as [s1|] eqn:Hi; [|done]. simpl in H.
    eapply same_modes_trans; [by eapply forward_layer_frame|by apply IH].
Qed.

Lemma set_mode_frame (self : FullyConnectedNet) (mode : string) :
  mode ≠ "mode" → same_modes (bn_params self) (bn_params (set_mode self mode)).
Proof.
  intros Hne. unfold set_mode. simpl. destruct (use_batchnorm self).
  - split; [by rewrite length_fmap|]. intros i bn bn' Hi Hi'.
    rewrite list_lookup_fmap, Hi in Hi'. simplify_eq/=. by rewrite lookup_insert_ne.
  - apply same_modes_refl.
Qed.

(** X16. What a call of [loss] that returns leaves of the network: the
    parameters, the flags, the number of layers and the regularisation
    strength are as before; the mode of the dropout record is the mode of
    the call; there are as many batch normalisation records as before, and
    the mode of each is as before, whatever the mode of the call.  Scores
    are returned without labels, a loss and gradients with labels. *)
Theorem FullyConnectedNet_loss_frame (rand : nat → matrix) (self self' : FullyConnectedNet)
    (X : matrix) (y : option (list Z)) (r : loss_result) :
  FullyConnectedNet_loss rand self X y = Some (r, self') →
  params self' = params self ∧ num_layers self' = num_layers self ∧
  use_batchnorm self' = use_batchnorm self ∧ use_dropout self' = use_dropout self ∧
  reg self' = reg self ∧
  dropout_param self' = <["mode" := VStr (mode_of y)]> (dropout_param self) ∧
  same_modes (bn_params self) (bn_params self') ∧
  is_grads r = bool_decide (is_Some y).
Proof.
  unfold FullyConnectedNet_loss. intros H.
  destruct (for_each (forward_layer _ _) _ _) as [s|] eqn:Hf; simplify_eq/=.
  apply forward_layers_frame in Hf. simpl in Hf.
  assert (Hm : same_modes (bn_params self) (f_bn_params s)).
  { eapply same_modes_trans; [|exact Hf].
    apply (set_mode_frame self (mode_of y)). by destruct y. }
  destruct (get_mat _ _) as [W|]; simplify_eq/=.
  destruct (get_vec _ _) as [b|]; simplify_eq/=.
  destruct y as [y|]; simplify_eq/=; [|done].
  destruct (softmax_loss _ y) as [[l dsm]|]; simplify_eq/=.
  destruct (for_each _ _ _) as [[dx' grads']|]; simplify_eq/=. done.
Qed.

Lemma sum_nonneg (v : vector) : Forall (λ a, 0 <= a) v → 0 <= sum v.
Proof.
  unfold sum. induction 1 as [|a v Ha _ IH]; simpl; lra.
Qed.

Lemma sum_sq_nonneg (W : matrix) : 0 <= sum_sq W.
Proof.
  unfold sum_sq, sum_all, sum_axis1, map2.
  apply sum_nonneg. rewrite !Forall_fmap. apply Forall_true. intros r. simpl.
  apply sum_nonneg. rewrite Forall_fmap. apply Forall_true. intros a. simpl.
  apply pow2_ge_0.
Qed.

(** X17. The training-time loss of the two-layer network is the softmax loss of
    the scores that the test-time call returns, plus the L2 penalty
    [0.5 * reg * (sum W1^2 + sum W2^2)]: the two are equal without
    regularisation, and the penalty of a [reg] that is not negative only
    adds to the loss. *)
Theorem TwoLayerNet_loss_decomposes (self : TwoLayerNet) (X : matrix) (y : list Z)
    (loss : R) (grads : store) :
  TwoLayerNet_loss self X (Some y) = Some (LossGrads loss grads) →
  ∃ scores data_loss dscores W1 W2,
    TwoLayerNet_loss self X None = Some (Scores scores) ∧
    softmax_loss scores y = Some (data_loss, dscores) ∧
    get_mat (tl_params self) "W1" = Some W1 ∧
    get_mat (tl_params self) "W2" = Some W2 ∧
    loss = data_loss + 0.5 * tl_reg self * (sum_sq W1 + sum_sq W2) ∧
    (tl_reg self = 0 → loss = data_loss) ∧
    (0 <= tl_reg self → data_loss <= loss).
Proof.
  unfold TwoLayerNet_loss. intros H.
  destruct (get_mat (tl_params self) "W1") as [W1|]; [|done].
  destruct (get_vec (tl_params self) "b1") as [b1|]; [|done].
  destruct (get_mat (tl_params self) "W2") as [W2|]; [|done].
  destruct (get_vec (tl_params self) "b2") as [b2|]; [|done].
  cbn [mbind option_bind] in *.
  destruct (affine_relu_forward X W1 b1) as [l1_out l1_cache].
  destruct (affine_forward l1_out W2 b2) as [l2_out l2_cache].
  destruct (softmax_loss l2_out y) as [[data_loss dsm]|] eqn:Hsm; [|done].
  cbn [mbind option_bind] in H.
  destruct (affine_backward dsm l2_cache) as [[dx2 dW2] db2].
  destruct (affine_relu_backward dx2 l1_cache) as [[dx1 dW1] db1].
  injection H as <- _.
  exists l2_out, data_loss, dsm, W1, W2. repeat (split; [done|]).
  pose proof (sum_sq_nonneg W1). pose proof (sum_sq_nonneg W2).
  split; [intros ->; lra|]. intros Hreg.
  assert (0 <= tl_reg self * (sum_sq W1 + sum_sq W2))
    by (apply Rmult_le_pos; lra).
  lra.
Qed.
End net_call_facts.

(** ** Networks at concrete inputs *)

Section net_runs.
Import np layers fc_net spec shapes net_state runs.
Local Open Scope R_scope.

Lemma TwoLayerNet_loss_missing_param_witness :
  TwoLayerNet_loss {| tl_params := ∅; tl_reg := 0 |} [[1]] None = None.
Proof.
  apply (TwoLayerNet_loss_missing_param _ _ _ "b2"); [|reflexivity].
  repeat constructor.
Defined.

Lemma TwoLayerNet_loss_decomposes_witness :
  ∃ loss grads scores data_loss dscores W1 W2,
    TwoLayerNet_loss two_net [[1]] (Some [0%Z]) = Some (LossGrads loss grads) ∧
    TwoLayerNet_loss two_net [[1]] None = Some (Scores scores) ∧
    softmax_loss scores [0%Z] = Some (data_loss, dscores) ∧
    get_mat (tl_params two_net) "W1" = Some W1 ∧
    get_mat (tl_params two_net) "W2" = Some W2 ∧
    loss = data_loss + 0.5 * tl_reg two_net * (sum_sq W1 + sum_sq W2) ∧
    data_loss <= loss.
Proof.
  pose proof two_net_trains as Ht.
  destruct (TwoLayerNet_loss two_net [[1]] (Some [0%Z])) as [[scores|loss grads]|]
    eqn:H; [discriminate Ht| |discriminate Ht].
  destruct (TwoLayerNet_loss_decomposes two_net [[1]] [0%Z] loss grads H)
    as (scores & data_loss & dscores & W1 & W2 & Hs & Hsm & HW1 & HW2 & Hl & _ & Hle).
  exists loss, grads, scores, data_loss, dscores, W1, W2.
  repeat (split; [assumption || reflexivity|]).
  apply Hle. simpl. lra.
Defined.

Lemma FullyConnectedNet_loss_empty_params_witness :
  FullyConnectedNet_loss rand_none empty_net [[1]] None = None.
Proof. apply FullyConnectedNet_loss_empty_params. reflexivity. Defined.

Lemma FullyConnectedNet_loss_frame_witness :
  ∃ r self',
    FullyConnectedNet_loss rand_none bn_net [[1]] (Some [1%Z]) = Some (r, self') ∧
    params self' = params bn_net ∧
    dropout_param self' = <["mode" := VStr "train"]> (dropout_param bn_net) ∧
    same_modes (bn_params bn_net) (bn_params self') ∧
    is_grads r = true.
Proof.
  destruct (FullyConnectedNet_loss rand_none bn_net [[1]] (Some [1%Z]))
    as [[r self']|] eqn:H.
  - exists r, self'. split; [reflexivity|].
    destruct (FullyConnectedNet_loss_frame _ _ _ _ _ _ H)
      as (Hp & _ & _ & _ & _ & Hd & Hm & Hg).
    split; [exact Hp|]. split; [exact Hd|]. split; [exact Hm|exact Hg].
  - exfalso. pose proof bn_net_trains as Ht. rewrite H in Ht. discriminate.
Defined.
End net_runs.

(** ** The solver *)

Section accuracy_facts.
Import solver solver_spec.
Local Open Scope Z_scope.

Context {array sample hidden : Type}.
Variable model_predict :
  gmap string array → hidden → list sample → option (list Z * hidden).

(** X18. The accuracy of an empty data set raises ([np.hstack] gets no
    array), whatever the other arguments are. *)
Theorem check_accuracy_empty (params : gmap string array) (h : hidden) (y : list Z)
    (num_samples : option nat) (batch_size : nat) (mask : list nat) :
  check_accuracy model_predict params h [] y num_samples batch_size mask = None.
Proof.
  assert (Hrest :
    (if decide (batch_size = 0%nat) then None else
     let num_batches := (0 / batch_size)%nat in
     let num_batches :=
       if decide (0 mod batch_size ≠ 0)%nat then (num_batches + 1)%nat else num_batches in
     '(y_pred, h) ←
       for_each (λ '(y_pred, h) i,
                   '(labels, h) ← model_predict params h
                                    (slice [] (i * batch_size) ((i + 1) * batch_size));
                   Some (y_pred ++ [labels], h))
                ([] : list (list Z), h) (range num_batches);
     if decide (y_pred = []) then None else Some (mean_equal (concat y_pred) y, h))
    = None).
  { case_decide; [done|]. cbv zeta.
    rewrite Nat.Div0.div_0_l, Nat.Div0.mod_0_l.
    destruct (decide (0 ≠ 0)%nat); done. }
  unfold check_accuracy. cbn [length].
  destruct num_samples as [n|]; [destruct (decide (n < 0)%nat); [lia|]|];
    exact Hrest.
Qed.

Lemma mean_equal_range (y_pred y : list Z) : (0 <= mean_equal y_pred y <= 1)%Q.
Proof.
  unfold mean_equal.
  set (hits := length (filter (λ '(a, b), a = b) (zip y_pred y))).
  assert (Hh : (hits ≤ length y_pred)%nat).
  { unfold hits. etrans; [apply length_filter|].
    rewrite length_zip_with. lia. }
  unfold Qle. simpl. split; [lia|].
  destruct (length y_pred) as [|n] eqn:Hn; [simpl; lia|].
  pose proof (Zpos_P_of_succ_nat n) as Hp. rewrite Pos.of_nat_succ in Hp. lia.
Qed.

(** X19. An accuracy is a fraction, between 0 and 1, for a model that predicts
    one label for each input. *)
Theorem check_accuracy_range (params : gmap string array) (h h' : hidden)
    (X : list sample) (y : list Z) (num_samples : option nat) (batch_size : nat)
    (mask : list nat) (acc : Q) :
  (∀ h0 X' labels h1,
     model_predict params h0 X' = Some (labels, h1) → length labels = length X') →
  check_accuracy model_predict params h X y num_samples batch_size mask
  = Some (acc, h') →
  (0 <= acc <= 1)%Q.
Proof.
  unfold check_accuracy. intros _ H.
  destruct (match num_samples with Some _ => _ | None => _ end) as [[[N X'] y']|];
    simplify_eq/=.
  case_decide; [done|].
  destruct (for_each _ _ _) as [[y_pred h1]|]; simplify_eq/=.
  case_decide; simplify_eq. apply mean_equal_range.
Qed.

Lemma slices_concat (X : list sample) (b k : nat) :
  concat ((λ i, slice X (i * b) ((i + 1) * b)) <$> seq 0 k) = take (k * b) X.
Proof.
  induction k as [|k IH]; [by rewrite take_0|].
  rewrite seq_S, fmap_app, concat_app, IH. simpl. rewrite app_nil_r.
  unfold slice. replace ((k + 1) * b - k * b)%nat with b by lia.
  rewrite take_take_drop. f_equal. lia.
Qed.

Lemma concat_fmap_slices (f : sample → Z) (g : nat → list sample) (l : list nat) :
  concat ((λ i, f <$> g i) <$> l) = f <$> concat (g <$> l).
Proof.
  induction l as [|i l IH]; [done|]. csimpl. by rewrite IH, fmap_app.
Qed.

Lemma batches_cover (N b : nat) :
  b ≠ 0%nat →
  let num_batches := (N / b)%nat in
  let num_batches :=
    if decide (N mod b ≠ 0)%nat then (num_batches + 1)%nat else num_batches in
  (N ≤ num_batches * b)%nat ∧ (N ≠ 0%nat → num_batches ≠ 0%nat).
Proof.
  intros Hb. cbv zeta. pose proof (Nat.div_mod_eq N b) as Hdm.
  pose proof (Nat.mod_upper_bound N b Hb) as Hlt.
  case_decide; split; try nia.
Qed.

Lemma predict_batches (f : sample → Z) (params : gmap string array) (h : hidden)
    (X : list sample) (b : nat) (l : list nat) (acc : list (list Z)) :
  (∀ h X', model_predict params h X' = Some (f <$> X', h)) →
  for_each (λ '(y_pred, h) i,
              '(labels, h) ← model_predict params h (slice X (i * b) ((i + 1) * b));
              Some (y_pred ++ [labels], h))
           (acc, h) l
  = Some (acc ++ ((λ i, f <$> slice X (i * b) ((i + 1) * b)) <$> l), h).
Proof.
  intros Hpure. revert acc. induction l as [|i l IH]; intros acc; simpl.
  - by rewrite app_nil_r.
  - rewrite Hpure. simpl. rewrite IH. by rewrite <- app_assoc.
Qed.

(** X20. Splitting into batches does not change the accuracy: for a model whose
    predictions are made input by input and leave the model as it is, the
    accuracy of a data set that is not subsampled is the mean of the equal
    labels of the whole set, for every batch size. *)
Theorem check_accuracy_batches (f : sample → Z) (params : gmap string array)
    (h : hidden) (X : list sample) (y : list Z) (num_samples : option nat)
    (batch_size : nat) (mask : list nat) :
  (∀ h X', model_predict params h X' = Some (f <$> X', h)) →
  X ≠ [] → length y = length X → batch_size ≠ 0%nat →
  (∀ n, num_samples = Some n → (length X ≤ n)%nat) →
  check_accuracy model_predict params h X y num_samples batch_size mask
  = Some (mean_equal (f <$> X) y, h).
Proof.
  intros Hpure HX _ Hb Hns. unfold check_accuracy.
  assert (Hsub : match num_samples with
                 | Some num_samples =>
                     if decide (num_samples < length X)%nat then
                       X0 ← take_indices X mask;
                       y0 ← take_indices y mask;
                       Some (num_samples, X0, y0)
                     else Some (length X, X, y)
                 | None => Some (length X, X, y)
                 end = Some (length X, X, y)).
  { destruct num_samples as [n|]; [|done]. specialize (Hns n eq_refl).
    by rewrite decide_False by lia. }
  cbv zeta. rewrite Hsub. cbn [mbind option_bind].
  rewrite decide_False by done.
  destruct (batches_cover (length X) batch_size Hb) as [Hcover Hnz].
  cbv zeta in Hcover, Hnz.
  set (nb := if decide (length X mod batch_size ≠ 0)%nat
             then (length X / batch_size + 1)%nat else (length X / batch_size)%nat) in *.
  rewrite (predict_batches f) by done. cbn [mbind option_bind app].
  assert (Hnb : nb ≠ 0%nat) by (apply Hnz; by destruct X).
  unfold range. destruct nb as [|nb'] eqn:Enb; [done|].
  rewrite decide_False by (by rewrite seq_S, fmap_app; intros ?%app_eq_nil; naive_solver).
  do 3 f_equal.
  rewrite (concat_fmap_slices f (λ i, slice X (i * batch_size) ((i + 1) * batch_size))).
  rewrite slices_concat. by rewrite take_ge.
Qed.
End accuracy_facts.

Section step_facts.
Import solver solver_spec.
Local Open Scope Z_scope.

Context {array sample hidden : Type}.
Variable model_loss :
  gmap string array → hidden → list sample → list Z
  → option (R * gmap string array * hidden).
Variable model_predict :
  gmap string array → hidden → list sample → option (list Z * hidden).
Variable update_rule :
  array → array → gmap string (@optval array)
  → option (array * gmap string (@optval array)).
Variables batch_mask subsample_mask : Z → list nat.

Local Notation "'step'" := (_step model_loss update_rule batch_mask).
Local Notation "'eval'" := (evaluate model_loss model_predict subsample_mask).
Local Notation "'iter'" :=
  (iteration model_loss model_predict update_rule batch_mask subsample_mask).
Local Notation "'loop'" :=
  (train_loop model_loss model_predict update_rule batch_mask subsample_mask).
Local Notation "'run'" :=
  (train model_loss model_predict update_rule batch_mask subsample_mask).

Lemma update_param_eq (grads P0 : gmap string array)
    (C0 : gmap string (gmap string (@optval array))) (p : string) (w : array) :
  update_param update_rule grads (P0, C0) (p, w) =
  dw ← grads !! p; c ← C0 !! p; '(nw, nc) ← update_rule w dw c;
  Some (<[p := nw]> P0, <[p := nc]> C0).
Proof. reflexivity. Qed.

Lemma update_params_spec (grads : gmap string array) (l : list (string * array))
    (P0 P : gmap string array) (C0 C : gmap string (gmap string (@optval array))) :
  NoDup l.*1 →
  for_each (update_param update_rule grads) (P0, C0) l = Some (P, C) →
  (∀ p, p ∉ l.*1 → P !! p = P0 !! p ∧ C !! p = C0 !! p) ∧
  (∀ p w, (p, w) ∈ l →
     ∃ dw c nw nc, grads !! p = Some dw ∧ C0 !! p = Some c ∧
       update_rule w dw c = Some (nw, nc) ∧ P !! p = Some nw ∧ C !! p = Some nc).
Proof.
  revert P0 C0. induction l as [|[p w] l IH]; intros P0 C0 Hnd H.
  - simplify_eq/=. split; [intros; by split|]. intros p w Hp. by apply elem_of_nil in Hp.
  - rewrite fmap_cons, NoDup_cons in Hnd. destruct Hnd as [Hp Hnd]. simpl in Hp.
    rewrite for_each_cons, update_param_eq in H.
    destruct (grads !! p) as [dw|] eqn:Hdw; cbn [mbind option_bind] in H; [|done].
    destruct (C0 !! p) as [c|] eqn:Hc; cbn [mbind option_bind] in H; [|done].
    destruct (update_rule w dw c) as [[nw nc]|] eqn:Hu;
      cbn [mbind option_bind] in H; [|done].
    destruct (IH _ _ Hnd H) as [Hout Hin]. split.
    + intros q Hq. rewrite fmap_cons in Hq. apply not_elem_of_cons in Hq as [Hne Hq].
      destruct (Hout q Hq) as [-> ->]. simpl in Hne.
      by rewrite !lookup_insert_ne.
    + intros q w' [[= -> ->]|Hq]%elem_of_cons.
      * destruct (Hout p Hp) as [HP HC]. exists dw, c, nw, nc.
        rewrite HP, HC, !lookup_insert_eq. done.
      * destruct (Hin q w' Hq) as (dw' & c' & nw' & nc' & H1 & H2 & H3 & H4 & H5).
        assert (q ≠ p).
        { intros ->. apply Hp. apply list_elem_of_fmap. by exists (p, w'). }
        rewrite lookup_insert_ne in H2 by done. by exists dw', c', nw', nc'.
Qed.

Lemma update_params_progress (grads : gmap string array) (l : list (string * array))
    (P0 : gmap string array) (C0 : gmap string (gmap string (@optval array))) :
  NoDup l.*1 →
  (∀ p w, (p, w) ∈ l →
     ∃ dw c, grads !! p = Some dw ∧ C0 !! p = Some c ∧ is_Some (update_rule w dw c)) →
  is_Some (for_each (update_param update_rule grads) (P0, C0) l).
Proof.
  revert P0 C0. induction l as [|[p w] l IH]; intros P0 C0 Hnd H; [by eexists|].
  rewrite fmap_cons, NoDup_cons in Hnd. destruct Hnd as [Hp Hnd]. simpl in Hp.
  rewrite for_each_cons, update_param_eq.
  destruct (H p w) as (dw & c & Hdw & Hc & [[nw nc] Hu]); [by left|].
  rewrite Hdw. cbn [mbind option_bind]. rewrite Hc. cbn [mbind option_bind].
  rewrite Hu. cbn [mbind option_bind]. apply IH; [done|].
  intros q w' Hq. destruct (H q w') as (dw' & c' & ? & ? & ?); [by right|].
  exists dw', c'. rewrite lookup_insert_ne; [done|].
  intros ->. apply Hp. apply list_elem_of_fmap. by exists (q, w').
Qed.

(** X21. One step: the loss of the mini-batch is appended to the history, and
    every parameter and its optimiser state are replaced by what the update
    rule returns for the parameter, its gradient and its state; the names
    of the parameters stay. *)
Theorem step_updates_every_parameter (o : @Options array sample) (t : Z)
    (s s' : @Solver array hidden) :
  step o t s = Some s' →
  ∃ X_batch y_batch loss grads,
    take_indices (X_train o) (batch_mask t) = Some X_batch ∧
    take_indices (y_train o) (batch_mask t) = Some y_batch ∧
    model_loss (model_params s) (model_hidden s) X_batch y_batch
      = Some (loss, grads, model_hidden s') ∧
    loss_history s' = loss_history s ++ [loss] ∧
    dom (model_params s') = dom (model_params s) ∧
    ∀ p w, model_params s !! p = Some w →
      ∃ dw c nw nc, grads !! p = Some dw ∧ optim_configs s !! p = Some c ∧
        update_rule w dw c = Some (nw, nc) ∧
        model_params s' !! p = Some nw ∧ optim_configs s' !! p = Some nc.
Proof.
  unfold _step. intros H.
  destruct (take_indices (X_train o) _) as [X_batch|] eqn:HX; [|done].
  destruct (take_indices (y_train o) _) as [y_batch|] eqn:Hy; [|done].
  cbn [mbind option_bind] in H.
  destruct (model_loss _ _ _ _) as [[[l g] h]|] eqn:Hl; [|done].
  cbn [mbind option_bind] in H.
  destruct (for_each _ _ _) as [[P C]|] eqn:Hf; [|done].
  cbn [mbind option_bind] in H. injection H as <-. cbn.
  destruct (update_params_spec _ _ _ _ _ _ (NoDup_fst_map_to_list _) Hf) as [Hout Hin].
  exists X_batch, y_batch, l, g. repeat (split; [done|]). split.
  - apply set_eq. intros p. rewrite !elem_of_dom.
    destruct (model_params s !! p) as [w|] eqn:Hp.
    + destruct (Hin p w) as (? & ? & nw & ? & _ & _ & _ & -> & _);
        [by apply elem_of_map_to_list|]. split; eauto.
    + destruct (Hout p) as [-> _]; [|by rewrite Hp].
      intros ((q & w) & -> & Hq%elem_of_map_to_list)%list_elem_of_fmap.
      simpl in Hp. congruence.
  - intros p w Hp. apply Hin. by apply elem_of_map_to_list.
Qed.

Lemma decay_spec_list (lr_decay : R) (l : list (string * gmap string (@optval array)))
    (C0 C : gmap string (gmap string (@optval array))) :
  NoDup l.*1 →
  for_each (λ configs '(k, c),
              match c !! "learning_rate" with
              | Some (OFloat lr) =>
                  Some (<[k := <["learning_rate" := OFloat (lr * lr_decay)%R]> c]> configs)
              | _ => None
              end) C0 l = Some C →
  (∀ k, k ∉ l.*1 → C !! k = C0 !! k) ∧
  (∀ k c, (k, c) ∈ l →
     ∃ lr, c !! "learning_rate" = Some (OFloat lr) ∧
       C !! k = Some (<["learning_rate" := OFloat (lr * lr_decay)%R]> c)).
Proof.
  revert C0. induction l as [|[k c] l IH]; intros C0 Hnd H.
  - simplify_eq/=. split; [done|]. intros p w Hp. by apply elem_of_nil in Hp.
  - rewrite fmap_cons, NoDup_cons in Hnd. destruct Hnd as [Hk Hnd]. simpl in Hk.
    rewrite for_each_cons in H.
    destruct (c !! "learning_rate") as [[lr|]|] eqn:Hlr;
      cbn [mbind option_bind] in H; [|done..].
    destruct (IH _ Hnd H) as [Hout Hin]. split.
    + intros q Hq. rewrite fmap_cons in Hq. apply not_elem_of_cons in Hq as [Hne Hq].
      rewrite (Hout q Hq). simpl in Hne. by rewrite lookup_insert_ne.
    + intros q c' [[= -> ->]|Hq]%elem_of_cons.
      * exists lr. split; [done|]. by rewrite (Hout k Hk), lookup_insert_eq.
      * by apply Hin.
Qed.

(** X22. The decay of the learning rate at the end of an epoch: every optimiser
    state has its learning rate multiplied by [lr_decay] and is otherwise
    kept; the decay raises when a state has no learning rate. *)
Theorem decay_multiplies_learning_rates (lr_decay : R)
    (configs : gmap string (gmap string (@optval array))) :
  (∀ configs', decay lr_decay configs = Some configs' →
     dom configs' = dom configs ∧
     ∀ k c lr, configs !! k = Some c → c !! "learning_rate" = Some (OFloat lr) →
       configs' !! k = Some (<["learning_rate" := OFloat (lr * lr_decay)%R]> c)) ∧
  (∀ k c, configs !! k = Some c → c !! "learning_rate" = None →
     decay lr_decay configs = None).
Proof.
  split.
  - unfold decay. intros C H.
    destruct (decay_spec_list _ _ _ _ (NoDup_fst_map_to_list _) H) as [Hout Hin].
    split.
    + apply set_eq. intros k. rewrite !elem_of_dom.
      destruct (configs !! k) as [c|] eqn:Hk.
      * destruct (Hin k c) as (lr & _ & ->); [by apply elem_of_map_to_list|].
        split; eauto.
      * rewrite Hout; [by rewrite Hk|].
        intros ((q & w) & -> & Hq%elem_of_map_to_list)%list_elem_of_fmap.
        simpl in Hk. congruence.
    + intros k c lr Hk Hlr.
      destruct (Hin k c) as (lr' & Hlr' & ->); [by apply elem_of_map_to_list|].
      congruence.
  - intros k c Hk Hnone. destruct (decay lr_decay configs) as [C|] eqn:H; [|done].
    unfold decay in H.
    destruct (decay_spec_list _ _ _ _ (NoDup_fst_map_to_list _) H) as [_ Hin].
    destruct (Hin k c) as (lr & Hlr & _); [by apply elem_of_map_to_list|]. congruence.
Qed.

Lemma step_counts (o : @Options array sample) t s s' :
  step o t s = Some s' →
  (∃ loss, loss_history s' = loss_history s ++ [loss]) ∧ epoch s' = epoch s.
Proof.
  unfold _step. intros H.
  destruct (take_indices (X_train o) _) as [X_batch|]; simplify_eq/=.
  destruct (take_indices (y_train o) _) as [y_batch|]; simplify_eq/=.
  destruct (model_loss _ _ _ _) as [[[l g] h]|]; simplify_eq/=.
  destruct (for_each _ _ _) as [[p c]|]; simplify_eq/=. eauto.
Qed.

Lemma evaluate_counts (o : @Options array sample) t s s' f :
  eval o t s = Some (s', f) → loss_history s' = loss_history s ∧ epoch s' = epoch s.
Proof.
  unfold evaluate. intros H.
  destruct (check_accuracy _ _ _ (X_train o) _ _ _ _) as [[train_acc h1]|];
    simplify_eq/=.
  destruct (check_accuracy _ _ _ (X_val o) _ _ _ _) as [[val_acc h2]|];
    simplify_eq/=.
  destruct (if verbose o then _ else _) as [[vl h3]|]; simplify_eq/=.
  destruct (Qlt_le_dec (best_val_acc s) val_acc); by simplify_eq/=.
Qed.

Lemma iteration_counts (o : @Options array sample) ipe ni t s s' f :
  iter o ipe ni t s = Some (s', f) →
  length (loss_history s') = S (length (loss_history s)) ∧
  epoch s' = epoch s + (if epoch_end ipe t then 1 else 0).
Proof.
  unfold iteration. intros H.
  destruct (step o t s) as [s0|] eqn:Hstep; [|done]. cbn [mbind option_bind] in H.
  destruct (step_counts _ _ _ _ Hstep) as [[loss Hl] He].
  assert (∃ s1, loss_history s1 = loss_history s0 ∧
                epoch s1 = epoch s0 + (if epoch_end ipe t then 1 else 0) ∧
                (if checkpoint ipe ni t then eval o t s1 else Some (s1, Continue))
                = Some (s', f)) as (s1 & Hl1 & He1 & Hev).
  { destruct (epoch_end ipe t).
    - destruct (decay _ _) as [configs|]; [|done]. cbn [mbind option_bind] in H.
      eexists. split; [|split; [|exact H]]; simpl; [done|lia].
    - cbn [mbind option_bind] in H. exists s0. split; [done|]. split; [lia|done]. }
  assert (loss_history s' = loss_history s1 ∧ epoch s' = epoch s1) as [Hl2 He2].
  { destruct (checkpoint ipe ni t); [by eapply evaluate_counts|by simplify_eq]. }
  rewrite Hl2, Hl1, Hl, He2, He1, He, length_app. simpl. split; lia.
Qed.

(** A loop left by early stopping ended in an iteration that checked the
    accuracies, did not improve, and put the best parameters back. *)
Lemma iteration_break (o : @Options array sample) ipe ni t s s' :
  iter o ipe ni t s = Some (s', Break) →
  checkpoint ipe ni t = true ∧ -1 < early_stopping o ∧
  early_stopping_counter s' <= 0 ∧ model_params s' = best_params s'.
Proof.
  intros H.
  destruct (iteration_unfold _ _ _ _ _ _ _ _ _ _ _ _ H) as (s1 & _ & _ & Hs).
  destruct (checkpoint ipe ni t); [|by destruct Hs].
  destruct (evaluate_cases _ _ _ _ _ _ _ _ Hs)
    as (ta & va & _ & _ & [(_ & _ & _ & _ & ?)|(_ & _ & Hbp & Hc & Hb & _)]);
    [done|].
  destruct (Hb eq_refl) as (He & Hle & Hp). rewrite Hc, Hp, Hbp. done.
Qed.

Lemma for_break_stop (o : @Options array sample) ipe ni ts s s' t :
  for_break (iter o ipe ni) ts s = Some (s', Some t) →
  t ∈ ts ∧ ∃ s0, iter o ipe ni t s0 = Some (s', Break).
Proof.
  revert s. induction ts as [|t0 ts IH]; intros s H; simpl in H; [done|].
  destruct (iter o ipe ni t0 s) as [[s1 f]|] eqn:Hi; simplify_eq/=.
  destruct f; simplify_eq.
  - destruct (IH _ H) as [? ?]. split; [by right|done].
  - split; [by left|eauto].
Qed.

Lemma elem_of_zrange (n t : Z) : t ∈ zrange n ↔ 0 ≤ t < n.
Proof.
  unfold zrange. rewrite list_elem_of_fmap. split.
  - intros (k & -> & Hk%elem_of_seq). lia.
  - intros Ht. exists (Z.to_nat t). split; [lia|]. apply elem_of_seq. lia.
Qed.

(** X23. When early stopping ends the loop: at an iteration of the loop that is
    the first one or the end of an epoch, with early stopping enabled and
    the counter used up, and the model has the best parameters. *)
Theorem early_stopping_point (o : @Options array sample) (s s' : @Solver array hidden)
    (t : Z) :
  loop o s = Some (s', Some t) →
  0 ≤ t < num_iterations o ∧
  (t = 0 ∨ (t + 1) mod iterations_per_epoch o = 0) ∧
  -1 < early_stopping o ∧ early_stopping_counter s' <= 0 ∧
  model_params s' = best_params s'.
Proof.
  unfold train_loop. case_decide as Hbs; [done|]. intros H.
  destruct (for_break_stop _ _ _ _ _ _ _ H) as [Ht%elem_of_zrange [s0 Hb]].
  destruct (iteration_break _ _ _ _ _ _ Hb) as (Hc & He & Hcnt & Hp).
  split; [done|]. split; [|done].
  unfold checkpoint, first_it, last_it, epoch_end in Hc.
  repeat case_bool_decide; simpl in Hc; try done; try lia; auto.
Qed.

(** X24. With a negative patience early stopping is disabled: the loop is never
    left before its last iteration. *)
Theorem no_early_stopping_when_disabled (o : @Options array sample)
    (s s' : @Solver array hidden) (r : option Z) :
  early_stopping o ≤ -1 → loop o s = Some (s', r) → r = None.
Proof.
  unfold train_loop. case_decide as Hbs; [done|]. intros He H.
  destruct r as [t|]; [|done].
  destruct (for_break_stop _ _ _ _ _ _ _ H) as [_ [s0 Hb]].
  destruct (iteration_break _ _ _ _ _ _ Hb) as (_ & He' & _). lia.
Qed.

Lemma div_succ (a d : Z) :
  0 < d → (a + 1) / d = a / d + (if bool_decide ((a + 1) mod d = 0) then 1 else 0).
Proof.
  intros Hd. pose proof (Z.div_mod a d). pose proof (Z.div_mod (a + 1) d).
  pose proof (Z.mod_pos_bound a d Hd). pose proof (Z.mod_pos_bound (a + 1) d Hd).
  case_bool_decide; nia.
Qed.

Lemma for_break_counts (o : @Options array sample) ipe ni (a n : nat) s s' r :
  0 < ipe →
  for_break (iter o ipe ni) (Z.of_nat <$> seq a n) s = Some (s', r) →
  let k := match r with None => Z.of_nat (a + n) | Some t => t + 1 end in
  Z.of_nat a ≤ k ∧
  Z.of_nat (length (loss_history s')) = Z.of_nat (length (loss_history s)) + (k - Z.of_nat a) ∧
  epoch s' = epoch s + (k / ipe - Z.of_nat a / ipe).
Proof.
  intros Hipe. revert a s. induction n as [|n IH]; intros a s H; simpl in H.
  - simplify_eq. cbv zeta. rewrite Nat.add_0_r. split; [lia|]. split; lia.
  - destruct (iter o ipe ni (Z.of_nat a) s) as [[s1 f]|] eqn:Hi; simplify_eq/=.
    destruct (iteration_counts _ _ _ _ _ _ _ Hi) as [Hl He].
    pose proof (div_succ (Z.of_nat a) ipe Hipe) as Hdiv.
    unfold epoch_end in He. destruct f; simplify_eq.
    + destruct (IH _ _ H) as (Hk & Hl' & He'). cbv zeta in *.
      replace (Z.of_nat (S a)) with (Z.of_nat a + 1) in * by lia.
      replace (Z.of_nat (a + S n)) with (Z.of_nat (S a + n)) by lia.
      split; [lia|]. split; [lia|]. rewrite He', He, Hdiv. lia.
    + cbv zeta. split; [lia|]. split; [lia|]. rewrite He, Hdiv. lia.
Qed.

(** X25. The book-keeping of the loop: one loss is recorded per iteration made,
    and the epoch counter goes up by the number of iterations made
    divided by the iterations per epoch; a loop that runs to its end goes
    through [num_epochs] epochs. *)
Theorem train_loop_counts (o : @Options array sample) (s s' : @Solver array hidden)
    (r : option Z) :
  loop o s = Some (s', r) →
  let steps := match r with None => Z.max 0 (num_iterations o) | Some t => t + 1 end in
  Z.of_nat (length (loss_history s')) = Z.of_nat (length (loss_history s)) + steps ∧
  epoch s' = epoch s + steps / iterations_per_epoch o ∧
  (r = None → 0 ≤ num_epochs o → epoch s' = epoch s + num_epochs o).
Proof.
  unfold train_loop. case_decide as Hbs; [done|]. intros H. unfold zrange in H.
  assert (Hipe : 0 < iterations_per_epoch o) by (unfold iterations_per_epoch; lia).
  destruct (for_break_counts _ _ _ _ _ _ _ _ Hipe H) as (Hk & Hl & He).
  cbv zeta in *. change (Z.of_nat 0) with 0 in *. change (0 / iterations_per_epoch o) with 0 in He.
  assert (Hsteps : match r with
                   | None => Z.of_nat (0 + Z.to_nat (num_iterations o))
                   | Some t => t + 1
                   end = match r with
                         | None => Z.max 0 (num_iterations o)
                         | Some t => t + 1
                         end) by (destruct r; lia).
  rewrite Hsteps in *. split; [lia|]. split; [lia|].
  intros -> Hne. rewrite He. unfold num_iterations.
  rewrite Z.max_r by nia. rewrite Z.div_mul by lia. lia.
Qed.

(** One iteration either leaves the best checkpoint as it is, or improves
    on it: then the loop goes on, the best parameters are the parameters
    of the model, and the best accuracy is the one just recorded. *)
Lemma iteration_best (o : @Options array sample) ipe ni t s s' f :
  iter o ipe ni t s = Some (s', f) →
  (best_val_acc s <= best_val_acc s')%Q ∧
  (∃ new, val_acc_history s' = val_acc_history s ++ new ∧
          Forall (λ a, (a <= best_val_acc s')%Q) new) ∧
  (best_params s' = best_params s ∧ best_val_acc s' = best_val_acc s
   ∨
   f = Continue ∧ best_params s' = model_params s' ∧
   last (val_acc_history s') = Some (best_val_acc s') ∧
   (best_val_acc s < best_val_acc s')%Q).
Proof.
  intros H.
  destruct (iteration_unfold _ _ _ _ _ _ _ _ _ _ _ _ H)
    as (s1 & (Hb1 & Hb2 & _) & [_ Ha] & Hs).
  destruct (checkpoint ipe ni t).
  - destruct (evaluate_cases _ _ _ _ _ _ _ _ Hs)
      as (ta & va & _ & H2 & [(Hlt & Hv & Hp & Hm & ->)|(Hle & Hv & Hp & _)]).
    + rewrite Hb2 in Hlt. split; [rewrite Hv; by apply Qlt_le_weak|]. split.
      * exists [va]. rewrite H2, Ha. split; [done|].
        constructor; [rewrite Hv; apply Qle_refl|done].
      * right. split; [done|]. split; [by rewrite Hp, Hm|].
        rewrite H2, last_snoc, Hv. done.
    + rewrite Hb2 in Hle. split; [rewrite Hv, Hb2; apply Qle_refl|]. split.
      * exists [va]. rewrite H2, Ha. split; [done|].
        constructor; [by rewrite Hv, Hb2|done].
      * left. by rewrite Hp, Hv, Hb1, Hb2.
  - destruct Hs as [-> ->]. split; [rewrite Hb2; apply Qle_refl|]. split.
    + exists []. by rewrite app_nil_r, Ha.
    + left. done.
Qed.

Lemma for_break_best (o : @Options array sample) ipe ni ts s s' r :
  for_break (iter o ipe ni) ts s = Some (s', r) →
  (best_val_acc s <= best_val_acc s')%Q ∧
  (∃ new, val_acc_history s' = val_acc_history s ++ new ∧
          Forall (λ a, (a <= best_val_acc s')%Q) new) ∧
  (best_params s' = best_params s ∧ best_val_acc s' = best_val_acc s
   ∨
   ∃ pre t post s0 s1,
     ts = pre ++ t :: post ∧
     for_break (iter o ipe ni) pre s = Some (s0, None) ∧
     iter o ipe ni t s0 = Some (s1, Continue) ∧
     best_params s' = model_params s1 ∧
     last (val_acc_history s1) = Some (best_val_acc s') ∧
     (best_val_acc s < best_val_acc s')%Q).
Proof.
  revert s. induction ts as [|t ts IH]; intros s H; simpl in H.
  - simplify_eq. split; [apply Qle_refl|]. split; [|by left].
    exists []. by rewrite app_nil_r.
  - destruct (iter o ipe ni t s) as [[s1 f]|] eqn:Hi; simplify_eq/=.
    destruct (iteration_best _ _ _ _ _ _ _ Hi) as (Hle & (new & Hn & Hf) & Hcase).
    destruct f; simplify_eq.
    + destruct (IH _ H) as (Hle' & (new' & Hn' & Hf') & Hcase').
      split; [by eapply Qle_trans|]. split.
      * exists (new ++ new'). rewrite Hn', Hn, app_assoc. split; [done|].
        apply Forall_app. split; [|done].
        eapply Forall_impl; [exact Hf|]. intros a Ha. simpl in *.
        by eapply Qle_trans.
      * destruct Hcase' as [[Hp Hv]|(pre & t' & post & s0 & s2 & -> & Hpre & Ht & Hp & Hl & Hlt)].
        -- destruct Hcase as [[Hp1 Hv1]|(_ & Hp1 & Hl1 & Hlt1)].
           ++ left. by rewrite Hp, Hv, Hp1, Hv1.
           ++ right. exists [], t, ts, s, s1. simpl.
              rewrite Hp, Hv. done.
        -- right. exists (t :: pre), t', post, s0, s2. simpl. rewrite Hi. simpl.
           repeat (split; [done|]). by eapply Qle_lt_trans.
    + split; [done|]. split; [by exists new|].
      destruct Hcase as [?|(? & _)]; [by left|done].
Qed.

(** X26. What [train] installs on a solver as [_reset] leaves it: the
    parameters at the end are [best_params]; no validation accuracy
    recorded in the run is above [best_val_acc]; and either no check found
    an accuracy above zero, and [best_params] is still the empty dict, or
    the parameters are those the model had after an iteration of the loop
    whose check recorded the accuracy [best_val_acc]. *)
Theorem train_installs_best_checkpoint (o : @Options array sample)
    (params : gmap string array) (h : hidden) (s' : @Solver array hidden) :
  run o (_reset o params h) = Some s' →
  model_params s' = best_params s' ∧
  (0 <= best_val_acc s')%Q ∧
  Forall (λ a, (a <= best_val_acc s')%Q) (val_acc_history s') ∧
  (best_params s' = ∅ ∧ best_val_acc s' = 0%Q
   ∨
   ∃ pre t post s0 s1,
     zrange (num_iterations o) = pre ++ t :: post ∧
     for_break (iter o (iterations_per_epoch o) (num_iterations o)) pre
       (_reset o params h) = Some (s0, None) ∧
     iter o (iterations_per_epoch o) (num_iterations o) t s0 = Some (s1, Continue) ∧
     model_params s' = model_params s1 ∧
     last (val_acc_history s1) = Some (best_val_acc s') ∧
     (0 < best_val_acc s')%Q).
Proof.
  unfold train, train_loop. intros H. case_decide as Hbs; [done|].
  destruct (for_break _ _ _) as [[s1 r]|] eqn:Hl; simplify_eq/=.
  destruct (for_break_best _ _ _ _ _ _ _ Hl) as (Hle & (new & Hnew & Hall) & Hcase).
  simpl in *. split; [done|]. split; [done|]. split; [by rewrite Hnew|]. done.
Qed.

(** X27. The edges of [train]: a batch size of zero raises; with no epoch to
    run no step is made, no accuracy is checked, and the model is left with
    the [best_params] the solver had. *)
Theorem train_without_iterations (o : @Options array sample) (s : @Solver array hidden) :
  (batch_size o = 0 → run o s = None) ∧
  (batch_size o ≠ 0 → num_epochs o ≤ 0 →
   ∃ s', run o s = Some s' ∧ model_params s' = best_params s ∧
     loss_history s' = loss_history s ∧ val_acc_history s' = val_acc_history s ∧
     epoch s' = epoch s).
Proof.
  unfold train, train_loop. split.
  - intros Hb. by rewrite decide_True.
  - intros Hb Hne. rewrite decide_False by done.
    assert (Hz : zrange (num_iterations o) = []).
    { unfold zrange, num_iterations, iterations_per_epoch.
      replace (Z.to_nat _) with 0%nat by nia. done. }
    rewrite Hz. simpl. eexists. split; [reflexivity|]. done.
Qed.

(** X28. [_reset] gives every parameter the options' [optim_config], so that the
    first step finds a state for each of them: when the mini-batch can be
    taken, the model returns a gradient for every parameter and the update
    rule accepts them, the step returns, and every parameter and its state
    are what the update rule gives for the parameter, its gradient and
    [optim_config]. *)
Theorem first_step_uses_optim_config (o : @Options array sample)
    (params : gmap string array) (h h' : hidden) (t : Z) (X_batch : list sample)
    (y_batch : list Z) (loss : R) (grads : gmap string array) :
  take_indices (X_train o) (batch_mask t) = Some X_batch →
  take_indices (y_train o) (batch_mask t) = Some y_batch →
  model_loss params h X_batch y_batch = Some (loss, grads, h') →
  (∀ p w, params !! p = Some w →
     ∃ dw, grads !! p = Some dw ∧ is_Some (update_rule w dw (optim_config o))) →
  ∃ s', step o t (_reset o params h) = Some s' ∧
    loss_history s' = [loss] ∧ model_hidden s' = h' ∧
    dom (optim_configs s') = dom params ∧
    ∀ p w dw, params !! p = Some w → grads !! p = Some dw →
      ∃ nw nc, update_rule w dw (optim_config o) = Some (nw, nc) ∧
        model_params s' !! p = Some nw ∧ optim_configs s' !! p = Some nc.
Proof.
  intros HX Hy Hl Hg. unfold _step. cbn [_reset model_params model_hidden
    optim_configs loss_history].
  rewrite HX, Hy. cbn [mbind option_bind]. rewrite Hl. cbn [mbind option_bind].
  destruct (update_params_progress grads (map_to_list params) params
              ((λ _, optim_config o) <$> params) (NoDup_fst_map_to_list _))
    as [[P C] Hf].
  { intros p w Hp%elem_of_map_to_list. destruct (Hg p w Hp) as (dw & Hdw & Hu).
    exists dw, (optim_config o). by rewrite lookup_fmap, Hp. }
  rewrite Hf. cbn [mbind option_bind]. eexists. split; [reflexivity|]. cbn.
  destruct (update_params_spec _ _ _ _ _ _ (NoDup_fst_map_to_list _) Hf) as [Hout Hin].
  repeat (split; [done|]). split.
  - apply set_eq. intros p. rewrite !elem_of_dom.
    destruct (params !! p) as [w|] eqn:Hp.
    + destruct (Hin p w) as (? & ? & ? & nc & _ & _ & _ & _ & ->);
        [by apply elem_of_map_to_list|]. split; eauto.
    + destruct (Hout p) as [_ ->]; [|rewrite lookup_fmap, Hp; split; intros [? [=]]].
      intros ((q & w) & -> & Hq%elem_of_map_to_list)%list_elem_of_fmap.
      simpl in Hp. congruence.
  - intros p w dw Hp Hdw.
    destruct (Hin p w) as (dw' & c & nw & nc & Hdw' & Hc & Hu & HP & HC);
      [by apply elem_of_map_to_list|].
    rewrite lookup_fmap, Hp in Hc. simplify_eq/=. by exists nw, nc.
Qed.
End step_facts.

(** ** The solver at concrete runs *)

Section solver_more_runs.
Import solver solver_spec runs.
Local Open Scope Z_scope.

Lemma toy_check_accuracy :
  check_accuracy toy.model_predict toy.params0 () [0%nat; 1%nat] [0; 0] (Some 1000%nat)
    100 [] = Some ((2 # 2)%Q, ()).
Proof. vm_compute. reflexivity. Qed.

Lemma check_accuracy_range_witness : (0 <= 2 # 2 <= 1)%Q.
Proof.
  apply (check_accuracy_range toy.model_predict toy.params0 () () [0%nat; 1%nat]
           [0; 0] (Some 1000%nat) 100 [] (2 # 2)%Q).
  - intros h0 X' labels h1 [= <- <-]. apply length_fmap.
  - exact toy_check_accuracy.
Defined.

Lemma check_accuracy_batches_witness :
  check_accuracy toy.model_predict toy.params0 () [0%nat; 1%nat; 2%nat] [0; 1; 0]
    None 2 [] = Some (mean_equal [0; 0; 0] [0; 1; 0], ()).
Proof.
  apply (check_accuracy_batches toy.model_predict (λ _, 0) toy.params0 ()
           [0%nat; 1%nat; 2%nat] [0; 1; 0] None 2 []).
  - intros h X'. reflexivity.
  - discriminate.
  - reflexivity.
  - lia.
  - intros n Hn. discriminate Hn.
Defined.

Lemma toy_step :
  _step toy.model_loss toy.update_rule toy.batch_mask (toy.options (-1)) 0
    (toy.solver0 (-1)) = Some (toy.after (-1) {["W1" := 1%nat]} 0 1 0).
Proof. vm_compute. reflexivity. Qed.

Lemma step_updates_every_parameter_witness :
  ∃ X_batch y_batch loss grads,
    take_indices [0%nat; 1%nat] [0%nat] = Some X_batch ∧
    take_indices [0; 0] [0%nat] = Some y_batch ∧
    toy.model_loss toy.params0 () X_batch y_batch = Some (loss, grads, ()) ∧
    loss_history (toy.after (-1) {["W1" := 1%nat]} 0 1 0) = [] ++ [loss] ∧
    dom ({["W1" := 1%nat]} : gmap string nat) = dom toy.params0 ∧
    ∀ p w, toy.params0 !! p = Some w →
      ∃ dw c nw nc, grads !! p = Some dw ∧
        optim_configs (toy.solver0 (-1)) !! p = Some c ∧
        toy.update_rule w dw c = Some (nw, nc) ∧
        ({["W1" := 1%nat]} : gmap string nat) !! p = Some nw ∧
        optim_configs (toy.after (-1) {["W1" := 1%nat]} 0 1 0) !! p = Some nc.
Proof.
  exact (step_updates_every_parameter toy.model_loss toy.update_rule toy.batch_mask
           (toy.options (-1)) 0 (toy.solver0 (-1))
           (toy.after (-1) {["W1" := 1%nat]} 0 1 0) toy_step).
Defined.

Lemma first_step_uses_optim_config_witness :
  ∃ s', _step toy.model_loss toy.update_rule toy.batch_mask (toy.options (-1)) 0
          (toy.solver0 (-1)) = Some s' ∧
    loss_history s' = [0%R] ∧ model_hidden s' = () ∧
    dom (optim_configs s') = dom toy.params0 ∧
    ∀ p w dw, toy.params0 !! p = Some w → ((λ _, 1%nat) <$> toy.params0) !! p = Some dw →
      ∃ nw nc, toy.update_rule w dw (optim_config (toy.options (-1))) = Some (nw, nc) ∧
        model_params s' !! p = Some nw ∧ optim_configs s' !! p = Some nc.
Proof.
  apply (first_step_uses_optim_config toy.model_loss toy.update_rule toy.batch_mask
           (toy.options (-1)) toy.params0 () () 0 [0%nat] [0] 0%R
           ((λ _, 1%nat) <$> toy.params0)).
  - reflexivity.
  - reflexivity.
  - reflexivity.
  - intros p w Hp. exists 1%nat. rewrite lookup_fmap, Hp. split; [reflexivity|].
    eexists. reflexivity.
Defined.

Lemma toy_decay :
  decay 2 ({["W1" := {["learning_rate" := OFloat 1%R]}]}
           : gmap string (gmap string (@optval nat)))
  = Some {["W1" := {["learning_rate" := OFloat (1 * 2)%R]}]}.
Proof. vm_compute. reflexivity. Qed.

Lemma decay_multiplies_learning_rates_witness :
  ({["W1" := {["learning_rate" := OFloat (1 * 2)%R]}]}
   : gmap string (gmap string (@optval nat))) !! "W1"
  = Some (<["learning_rate" := OFloat (1 * 2)%R]> {["learning_rate" := OFloat 1%R]}) ∧
  decay 2 ({["W1" := ∅]} : gmap string (gmap string (@optval nat))) = None.
Proof.
  split.
  - apply (proj2 (proj1 (decay_multiplies_learning_rates 2 _) _ toy_decay)
             "W1" {["learning_rate" := OFloat 1%R]} 1%R); reflexivity.
  - apply (proj2 (decay_multiplies_learning_rates 2 {["W1" := ∅]}) "W1" ∅);
      reflexivity.
Defined.

Lemma early_stopping_point_witness :
  0 ≤ 0 < num_iterations (toy.options 1) ∧
  (0 = 0 ∨ (0 + 1) mod iterations_per_epoch (toy.options 1) = 0) ∧
  -1 < early_stopping (toy.options 1) ∧
  early_stopping_counter (toy.after 1 ∅ 0 1 1) <= 0 ∧
  model_params (toy.after 1 ∅ 0 1 1) = best_params (toy.after 1 ∅ 0 1 1).
Proof.
  exact (early_stopping_point toy.model_loss toy.model_predict toy.update_rule
           toy.batch_mask toy.subsample_mask (toy.options 1) (toy.solver0 1)
           (toy.after 1 ∅ 0 1 1) 0 toy_train_loop_stops).
Defined.

Lemma no_early_stopping_when_disabled_witness :
  ∃ s', toy.train_loop (-1) = Some (s', None).
Proof.
  destruct (toy.train_loop (-1)) as [[s' r]|] eqn:H.
  - exists s'.
    rewrite (no_early_stopping_when_disabled toy.model_loss toy.model_predict
               toy.update_rule toy.batch_mask toy.subsample_mask (toy.options (-1))
               (toy.solver0 (-1)) s' r ltac:(simpl; lia) H).
    reflexivity.
  - exfalso. pose proof toy_train_loop as Ht. rewrite H in Ht. discriminate.
Defined.

Lemma train_loop_counts_witness :
  Z.of_nat (length (loss_history (toy.after (-1) {["W1" := 2%nat]} 1 2 2)))
  = Z.of_nat (length (loss_history (toy.solver0 (-1)))) + 2 ∧
  epoch (toy.after (-1) {["W1" := 2%nat]} 1 2 2) = epoch (toy.solver0 (-1)) + 1.
Proof.
  destruct (train_loop_counts toy.model_loss toy.model_predict toy.update_rule
              toy.batch_mask toy.subsample_mask (toy.options (-1)) (toy.solver0 (-1))
              (toy.after (-1) {["W1" := 2%nat]} 1 2 2) None toy_train_loop)
    as (Hl & _ & He).
  split; [exact Hl|]. apply He; [reflexivity|simpl; lia].
Defined.

Lemma train_installs_best_checkpoint_witness :
  model_params (toy.after (-1) ∅ 1 2 2) = best_params (toy.after (-1) ∅ 1 2 2) ∧
  (0 <= best_val_acc (toy.after (-1) ∅ 1 2 2))%Q ∧
  Forall (λ a, (a <= best_val_acc (toy.after (-1) ∅ 1 2 2))%Q)
    (val_acc_history (toy.after (-1) ∅ 1 2 2)).
Proof.
  destruct (train_installs_best_checkpoint toy.model_loss toy.model_predict
              toy.update_rule toy.batch_mask toy.subsample_mask (toy.options (-1))
              toy.params0 () (toy.after (-1) ∅ 1 2 2) toy_train)
    as (Hp & Hle & Hall & _).
  split; [exact Hp|]. split; [exact Hle|exact Hall].
Defined.

Lemma train_without_iterations_witness :
  ∃ s', train toy.model_loss toy.model_predict toy.update_rule toy.batch_mask
          toy.subsample_mask idle_options (toy.solver0 (-1)) = Some s' ∧
        model_params s' = best_params (toy.solver0 (-1)) ∧
        loss_history s' = loss_history (toy.solver0 (-1)) ∧
        val_acc_history s' = val_acc_history (toy.solver0 (-1)) ∧
        epoch s' = epoch (toy.solver0 (-1)).
Proof.
  apply (proj2 (train_without_iterations toy.model_loss toy.model_predict
                  toy.update_rule toy.batch_mask toy.subsample_mask idle_options
                  (toy.solver0 (-1)))).
  - simpl. lia.
  - simpl. lia.
Defined.
End solver_more_runs.
